(** * Session segmentation, duplicate detection and session repair of the
    activity tracker (traq), as a shallow embedding in Rocq.

    Sources embedded here:
    - [tracker/capture.py]: [ScreenCapture._generate_dhash],
      [ScreenCapture.compare_hashes];
    - [tracker/daemon.py]: [ActivityDaemon._hamming_distance],
      [ActivityDaemon._should_skip_screenshot], [ActivityDaemon.run];
    - [tracker/sessions.py]: [SessionManager.start_session],
      [SessionManager.end_session], [SessionManager.get_session];
    - [scripts/merge_fragmented_sessions.py]:
      [find_fragmented_pairs_with_threshold], [build_merge_chains],
      [merge_chain] and the merge loop of [main].

    Python exceptions are values of [result]; Python strings are [string];
    Python ints are [N] or [Z]; SQL tables are lists of rows in id order. *)

From Stdlib Require Import List String Ascii ZArith NArith Lia Bool.
Import ListNotations.
Open Scope string_scope.

(* ------------------------------------------------------------------ *)
(** ** Python exceptions and results *)

(** A raised Python exception: its class name and its message. *)
Record exn := mk_exn { exn_type : string; exn_msg : string }.

Inductive result (A : Type) : Type :=
| Ok (a : A)
| Raise (e : exn).
Arguments Ok {A} a.
Arguments Raise {A} e.

Definition value_error (msg : string) : exn := mk_exn "ValueError" msg.

(* ------------------------------------------------------------------ *)
(** ** Hexadecimal strings, [int(s, 16)], [bin(x).count('1')] *)

Definition hex_digit_value (c : ascii) : option N :=
  let n := N.of_nat (nat_of_ascii c) in
  if (48 <=? n)%N && (n <=? 57)%N then Some (n - 48)%N
  else if (97 <=? n)%N && (n <=? 102)%N then Some (n - 87)%N
  else if (65 <=? n)%N && (n <=? 70)%N then Some (n - 55)%N
  else None.

Fixpoint parse_hex_aux (s : string) (acc : N) : option N :=
  match s with
  | EmptyString => Some acc
  | String c rest =>
      match hex_digit_value c with
      | Some d => parse_hex_aux rest (acc * 16 + d)%N
      | None => None
      end
  end.

(** [int(s, 16)] on strings made of hex digits; [None] is the
    [ValueError] Python raises ([int('', 16)] included).  The other
    spellings Python also accepts (surrounding blanks, a sign, a [0x]
    prefix, underscores between digits) are not hash strings and are
    left out of the model. *)
Definition parse_hex (s : string) : option N :=
  match s with
  | EmptyString => None
  | _ => parse_hex_aux s 0
  end.

Fixpoint all_hex (s : string) : bool :=
  match s with
  | EmptyString => true
  | String c rest =>
      match hex_digit_value c with Some _ => all_hex rest | None => false end
  end.

Fixpoint pos_popcount (p : positive) : nat :=
  match p with
  | xH => 1
  | xO q => pos_popcount q
  | xI q => S (pos_popcount q)
  end.

(** [bin(x).count('1')] for a non-negative [x]. *)
Definition popcount (n : N) : nat :=
  match n with N0 => 0 | Npos p => pos_popcount p end.

(* ------------------------------------------------------------------ *)
(** ** [ScreenCapture.compare_hashes] (tracker/capture.py) *)

Definition compare_hashes (hash1 hash2 : string) : result nat :=
  if negb (String.length hash1 =? String.length hash2)%nat
  then Raise (value_error "Hash lengths must be equal")
  else
    match parse_hex hash1, parse_hex hash2 with
    | Some int1, Some int2 => Ok (popcount (N.lxor int1 int2))
    | _, _ => Raise (value_error "invalid literal for int() with base 16")
    end.

(** [ScreenCapture.are_similar]: [compare_hashes(...) <= threshold]. *)
Definition are_similar (hash1 hash2 : string) (threshold : Z) : result bool :=
  match compare_hashes hash1 hash2 with
  | Ok d => Ok (Z.of_nat d <=? threshold)%Z
  | Raise e => Raise e
  end.

(* ------------------------------------------------------------------ *)
(** ** [ActivityDaemon._hamming_distance] and
       [ActivityDaemon._should_skip_screenshot] (tracker/daemon.py) *)

(** The daemon's distance: an int, or [float('inf')]. *)
Inductive distance := Fin (n : nat) | Inf.

Definition hamming_distance (hash1 hash2 : string) : result distance :=
  if negb (String.length hash1 =? String.length hash2)%nat then Ok Inf
  else
    match parse_hex hash1, parse_hex hash2 with
    | Some int1, Some int2 => Ok (Fin (popcount (N.lxor int1 int2)))
    | _, _ => Raise (value_error "invalid literal for int() with base 16")
    end.

(** [distance < k]; [float('inf') < 3] is [False]. *)
Definition distance_ltb (d : distance) (k : nat) : bool :=
  match d with Fin n => (n <? k)%nat | Inf => false end.

(** Python truthiness of an [Optional[str]]: [None] and [""] are falsy. *)
Definition truthy (s : option string) : bool :=
  match s with None => false | Some EmptyString => false | Some _ => true end.

(** [_should_skip_screenshot]; [last_dhash] is [self.last_dhash]. *)
Definition should_skip (last_dhash current_dhash : option string) : result bool :=
  if negb (truthy last_dhash) || negb (truthy current_dhash) then Ok false
  else
    match current_dhash, last_dhash with
    | Some cur, Some last =>
        match hamming_distance cur last with
        | Ok d => Ok (distance_ltb d 3)
        | Raise e => Raise e
        end
    | _, _ => Ok false
    end.

(* ------------------------------------------------------------------ *)
(** ** [ScreenCapture._generate_dhash] (tracker/capture.py)

    The resize to [(hash_size + 1) x hash_size] and the conversion to
    greyscale are done by PIL; the embedding starts from the result,
    [pixels = list(img.getdata())], row-major. *)

(** The flat indices [row_start + col] visited by the two loops. *)
Definition dhash_indices (hash_size : nat) : list nat :=
  flat_map (fun row => map (fun col => row * (hash_size + 1) + col) (seq 0 hash_size))
    (seq 0 hash_size).

(** [difference.append(pixel_left > pixel_right)] over the indices;
    [None] is the [IndexError] of an out-of-range [pixels[...]]. *)
Fixpoint differences (pixels : list Z) (idx : list nat) : option (list bool) :=
  match idx with
  | [] => Some []
  | i :: rest =>
      match nth_error pixels i, nth_error pixels (S i) with
      | Some pixel_left, Some pixel_right =>
          match differences pixels rest with
          | Some bits => Some ((pixel_right <? pixel_left)%Z :: bits)
          | None => None
          end
      | _, _ => None
      end
  end.

(** [for i, bit in enumerate(difference): if bit: decimal_value |= (1 << i)] *)
Fixpoint or_bits (bits : list bool) (i : N) (acc : N) : N :=
  match bits with
  | [] => acc
  | b :: rest => or_bits rest (i + 1)%N (if b then N.lor acc (N.shiftl 1 i) else acc)
  end.

Definition hex_char (d : N) : ascii :=
  ascii_of_nat (if (d <? 10)%N then 48 + N.to_nat d else 87 + N.to_nat d).

Fixpoint hex_aux (fuel : nat) (n : N) (acc : string) : string :=
  match fuel with
  | O => acc
  | S f =>
      match n with
      | N0 => acc
      | _ => hex_aux f (n / 16)%N (String (hex_char (n mod 16)%N) acc)
      end
  end.

(** [format(n, 'x')]: lower-case hex digits, no leading zeros. *)
Definition hex_string (n : N) : string :=
  match n with
  | N0 => "0"
  | _ => hex_aux (N.size_nat n) n ""
  end.

Fixpoint zeros (k : nat) : string :=
  match k with O => "" | S k' => String "0" (zeros k') end.

(** [f"{n:016x}"]: pad on the left with ['0'] to width 16. *)
Definition format_016x (n : N) : string :=
  zeros (16 - String.length (hex_string n)) ++ hex_string n.

Definition generate_dhash (pixels : list Z) (hash_size : nat) : result string :=
  match differences pixels (dhash_indices hash_size) with
  | Some difference => Ok (format_016x (or_bits difference 0 0))
  | None => Raise (mk_exn "IndexError" "list index out of range")
  end.

(* ------------------------------------------------------------------ *)
(** ** Session rows and the session storage

    Instants are [Z] microseconds since an epoch (Python [datetime]s and
    the ISO strings stored for them).  A session row carries the columns
    of [activity_sessions] read by [get_session_details]. *)

Record session_row := mk_session {
  id : Z;
  start_time : Z;
  end_time : option Z;
  duration_seconds : option Z;
  screenshot_count : Z;
  unique_windows : Z
}.

Definition usec_per_sec : Z := 1000000.

(** Modelled from the spec: the session storage ([StorageManager], not in
    the repository's sources) used by [SessionManager].  §6 lists
    [create_session(start_time) -> id], [get_session(id) -> record|none],
    [end_session(id, end_time, duration_seconds)] and [delete_session(id)];
    the rows are kept in id order, and a new id is one more than the largest. *)
Definition next_session_id (table : list session_row) : Z :=
  (fold_left (fun m r => Z.max m (id r)) table 0 + 1)%Z.

Definition storage_create_session (table : list session_row) (start : Z)
  : list session_row * Z :=
  let sid := next_session_id table in
  ((table ++ [mk_session sid start None None 0%Z 0%Z])%list, sid).

(** Modelled from the spec: [get_session(id) -> record|none]. *)
Definition storage_get_session (table : list session_row) (sid : Z) : option session_row :=
  find (fun r => (id r =? sid)%Z) table.

(** Modelled from the spec: [delete_session(id)]. *)
Definition storage_delete_session (table : list session_row) (sid : Z) : list session_row :=
  filter (fun r => negb (id r =? sid)%Z) table.

(** Modelled from the spec: [end_session(id, end_time, duration_seconds)]. *)
Definition storage_end_session (table : list session_row) (sid end_t dur : Z)
  : list session_row :=
  map (fun r => if (id r =? sid)%Z
                then mk_session (id r) (start_time r) (Some end_t) (Some dur)
                       (screenshot_count r) (unique_windows r)
                else r) table.

(* ------------------------------------------------------------------ *)
(** ** [SessionManager] (tracker/sessions.py) *)

Record session_manager := mk_manager {
  storage : list session_row;
  min_session_minutes : Z;
  current_session_id : option Z;
  session_window_titles : list string
}.

(** [start_session]; [now] is [datetime.now()]. *)
Definition start_session (m : session_manager) (now : Z) : session_manager * Z :=
  let (table, sid) := storage_create_session (storage m) now in
  (mk_manager table (min_session_minutes m) (Some sid) [], sid).

(** [int((end_time - start_time).total_seconds())]: truncation toward 0. *)
Definition elapsed_seconds (start end_t : Z) : Z :=
  Z.quot (end_t - start) usec_per_sec.

(** [end_session]; [end_time = None] means [datetime.now()], given as
    [now].  The test [duration_seconds / 60 < min_session_minutes] is the
    exact comparison [duration_seconds < 60 * min_session_minutes]. *)
Definition end_session (m : session_manager) (session_id : Z) (end_time_arg : option Z)
    (now : Z) : session_manager * option session_row :=
  let end_t := match end_time_arg with Some e => e | None => now end in
  match storage_get_session (storage m) session_id with
  | None => (m, None)
  | Some session =>
      let dur := elapsed_seconds (start_time session) end_t in
      if (dur <? 60 * min_session_minutes m)%Z then
        (mk_manager (storage_delete_session (storage m) session_id)
                    (min_session_minutes m) None [], None)
      else
        let table := storage_end_session (storage m) session_id end_t dur in
        (mk_manager table (min_session_minutes m) None [],
         storage_get_session table session_id)
  end.

(** [SessionManager.get_session] *)
Definition get_session (m : session_manager) (session_id : Z) : option session_row :=
  storage_get_session (storage m) session_id.

(** [SessionManager.track_window_title]: [not window_title] and
    [window_title in self._session_window_titles] answer [False]; otherwise
    the title is added to the set and the answer is [True]. *)
Definition track_window_title (m : session_manager) (session_id : Z) (window_title : string)
  : session_manager * bool :=
  if String.eqb window_title "" then (m, false)
  else if existsb (String.eqb window_title) (session_window_titles m) then (m, false)
  else (mk_manager (storage m) (min_session_minutes m) (current_session_id m)
                   (window_title :: session_window_titles m), true).

(** Successive calls of [track_window_title] for one session. *)
Fixpoint track_window_titles (m : session_manager) (session_id : Z) (titles : list string)
  : session_manager * list bool :=
  match titles with
  | [] => (m, [])
  | t :: rest =>
      let (m1, b) := track_window_title m session_id t in
      let (m2, bs) := track_window_titles m1 session_id rest in
      (m2, b :: bs)
  end.

(* ------------------------------------------------------------------ *)
(** ** The capture loop [ActivityDaemon.run] (tracker/daemon.py) *)

(** What [self.capture.capture_screen()] gives: a file path and a dhash,
    or a raised [ScreenCaptureError]. *)
Inductive capture_outcome :=
| Captured (filepath dhash : string)
| CaptureFailed (e : exn).

(** One iteration of the loop, as seen from outside: the capture, its
    instant, and what [_get_active_window_info] reports. *)
Record capture_event := mk_event {
  ts : Z;
  capture : capture_outcome;
  ev_window_title : option string;
  ev_app_name : option string
}.

(** A row of the [screenshots] table written by [save_screenshot]. *)
Record screenshot_row := mk_shot {
  shot_id : Z;
  shot_timestamp : Z;
  shot_filepath : string;
  shot_dhash : string;
  shot_window_title : option string;
  shot_app_name : option string
}.

(** The daemon's fields that the loop reads or writes, together with the
    session table of the same database. *)
Record daemon_state := mk_daemon {
  running : bool;
  last_dhash : option string;
  screenshots : list screenshot_row;
  sessions : list session_row
}.

(** Inputs to the loop: an iteration, or SIGTERM/SIGINT between
    iterations ([_signal_handler] sets [self.running = False]). *)
Inductive loop_input :=
| Tick (ev : capture_event)
| Signal.

Section Daemon.

(** [get_app_name_with_inference] of [tracker/app_inference.py]. *)
Variable get_app_name_with_inference : option string -> option string -> option string.

(** The body of [while self.running]; every exception of the body is
    caught by [except Exception] and logged, leaving the state as it was. *)
Definition daemon_tick (st : daemon_state) (ev : capture_event) : daemon_state :=
  match capture ev with
  | CaptureFailed _ => st
  | Captured filepath current_dhash =>
      if String.eqb filepath "" then st
      else
        match should_skip (last_dhash st) (Some current_dhash) with
        | Raise _ => st
        | Ok true => st
        | Ok false =>
            let app := get_app_name_with_inference (ev_app_name ev) (ev_window_title ev) in
            let sid := (Z.of_nat (List.length (screenshots st)) + 1)%Z in
            mk_daemon (running st) (Some current_dhash)
              (screenshots st ++ [mk_shot sid (ts ev) filepath current_dhash
                                          (ev_window_title ev) app])%list
              (sessions st)
        end
  end.

Fixpoint daemon_run (st : daemon_state) (inputs : list loop_input) : daemon_state :=
  match inputs with
  | [] => st
  | Signal :: rest => daemon_run (mk_daemon false (last_dhash st) (screenshots st) (sessions st)) rest
  | Tick ev :: rest =>
      if running st then daemon_run (daemon_tick st ev) rest else st
  end.

End Daemon.

(** Sessions the loop adds to the session table. *)
Definition sessions_created infer (st : daemon_state) (inputs : list loop_input) : nat :=
  List.length (sessions (daemon_run infer st inputs)) - List.length (sessions st).

(** The dhashes of the screenshots saved one after the other, starting
    from the remembered [last_dhash]: each one was not skipped against the
    one before it. *)
Fixpoint accepted_chain (prev : option string) (hashes : list string) : Prop :=
  match hashes with
  | [] => True
  | h :: rest => should_skip prev (Some h) = Ok false /\ accepted_chain (Some h) rest
  end.

(* ------------------------------------------------------------------ *)
(** ** The [WM_CLASS] parsing of [ActivityDaemon._get_active_window_info]

    The [xdotool]/[xprop] calls are outside the embedding; what is embedded
    is how the [xprop -id <window> WM_CLASS] result becomes [app_name].
    Characters are the code points 0-255 of the decoded text. *)

(** [str.isspace] on code points 0-255. *)
Definition is_space (c : ascii) : bool :=
  let n := nat_of_ascii c in
  ((9 <=? n) && (n <=? 13) || (28 <=? n) && (n <=? 32) || (n =? 133) || (n =? 160))%nat.

Fixpoint lstrip (s : string) : string :=
  match s with
  | EmptyString => EmptyString
  | String c rest => if is_space c then lstrip rest else s
  end.

Fixpoint rstrip (s : string) : string :=
  match s with
  | EmptyString => EmptyString
  | String c rest =>
      let r := rstrip rest in
      if is_space c && String.eqb r "" then EmptyString else String c r
  end.

(** [s.strip()] *)
Definition strip (s : string) : string := rstrip (lstrip s).

Definition equals_sign : ascii := ascii_of_nat 61.
Definition dquote : ascii := ascii_of_nat 34.

(** [output.split('=', 1)[1]] when ['=' in output], [None] otherwise. *)
Fixpoint after_equals (s : string) : option string :=
  match s with
  | EmptyString => None
  | String c rest => if Ascii.eqb c equals_sign then Some rest else after_equals rest
  end.

(** [re.findall] of the pattern for a double-quoted group (a quote, a
    run of non-quote characters captured, a quote) on [s]: [inside] is [Some acc] after an opening
    quote whose group has read [acc] so far.  A quote with no closing quote
    after it starts no match, and there is no quote left to start another. *)
Fixpoint findall_quoted (s : string) (inside : option string) : list string :=
  match s with
  | EmptyString => []
  | String c rest =>
      if Ascii.eqb c dquote then
        match inside with
        | None => findall_quoted rest (Some "")
        | Some acc => acc :: findall_quoted rest None
        end
      else
        match inside with
        | None => findall_quoted rest None
        | Some acc => findall_quoted rest (Some (acc ++ String c ""))
        end
  end.

(** [app_name] from the [returncode] and [stdout] of the [xprop] call. *)
Definition wm_class_app_name (returncode : Z) (stdout : string) : option string :=
  if (returncode =? 0)%Z then
    match after_equals (strip stdout) with
    | None => None
    | Some class_part =>
        match findall_quoted (strip class_part) None with
        | _ :: second :: _ => Some second
        | [only] => Some only
        | [] => None
        end
    end
  else None.

(** [s] wrapped in double quotes. *)
Definition quoted (s : string) : string := String dquote (s ++ String dquote "").

Definition no_dquote (s : string) : bool :=
  forallb (fun c => negb (Ascii.eqb c dquote)) (list_ascii_of_string s).

(* ------------------------------------------------------------------ *)
(** ** The session repairer (scripts/merge_fragmented_sessions.py)

    The database as the script sees it: [activity_sessions] in id order
    (the order of its integer primary key), and the child tables
    [session_screenshots], [window_focus_events] and [session_ocr_cache]
    reduced to the columns the script reads or writes.  [julianday]
    arithmetic is done exactly on microseconds. *)

Record ocr_row := mk_ocr { ocr_session_id : Z; ocr_window_title : string; ocr_text : string }.

Record database := mk_db {
  activity_sessions : list session_row;
  session_screenshots : list (Z * Z);            (* (session_id, screenshot_id) *)
  window_focus_events : list (Z * option string); (* (session_id, window_title) *)
  session_ocr_cache : list ocr_row
}.

(** A row of the result of [find_fragmented_pairs_with_threshold]:
    [(s1_id, s2_id, s1_start, s1_end, s2_start, s2_end, gap)]. *)
Record frag_pair := mk_pair {
  s1_id : Z; s2_id : Z;
  s1_start : Z; s1_end : Z;
  s2_start : Z; s2_end : Z;
  gap_usec : Z
}.

(** The row [s1] joined with [s2.id = s1.id + 1] and the [WHERE] clause:
    both closed, [0 < gap < gap_threshold] seconds. *)
Definition fragmented_pair (table : list session_row) (gap_threshold : Z) (s1 : session_row)
  : option frag_pair :=
  match storage_get_session table (id s1 + 1), end_time s1 with
  | Some s2, Some e1 =>
      match end_time s2 with
      | Some e2 =>
          let gap := (start_time s2 - e1)%Z in
          if (0 <? gap)%Z && (gap <? gap_threshold * usec_per_sec)%Z
          then Some (mk_pair (id s1) (id s2) (start_time s1) e1 (start_time s2) e2 gap)
          else None
      | None => None
      end
  | _, _ => None
  end.

Fixpoint collect_pairs (table rows : list session_row) (gap_threshold : Z) : list frag_pair :=
  match rows with
  | [] => []
  | s1 :: rest =>
      match fragmented_pair table gap_threshold s1 with
      | Some p => p :: collect_pairs table rest gap_threshold
      | None => collect_pairs table rest gap_threshold
      end
  end.

(** [find_fragmented_pairs_with_threshold] ([ORDER BY s1.id] is the
    table's order). *)
Definition find_fragmented_pairs_with_threshold (db : database) (gap_threshold : Z)
  : list frag_pair :=
  collect_pairs (activity_sessions db) (activity_sessions db) gap_threshold.

(** The loop of [build_merge_chains] from index 1 on. *)
Fixpoint build_chains_from (chains : list (list Z)) (current_chain : list Z)
    (pairs : list frag_pair) : list (list Z) :=
  match pairs with
  | [] => (chains ++ [current_chain])%list
  | p :: rest =>
      if (s1_id p =? last current_chain 0)%Z
      then build_chains_from chains (current_chain ++ [s2_id p])%list rest
      else build_chains_from (chains ++ [current_chain])%list [s1_id p; s2_id p] rest
  end.

Definition build_merge_chains (pairs : list frag_pair) : list (list Z) :=
  match pairs with
  | [] => []
  | p0 :: rest => build_chains_from [] [s1_id p0; s2_id p0] rest
  end.

(** The per-donor foreign-key moves of [merge_chain]. *)
Definition move_donor (keep_id del_id : Z) (db : database) : database :=
  let shots := map (fun '(sid, shot) => if (sid =? del_id)%Z then (keep_id, shot) else (sid, shot))
                   (session_screenshots db) in
  let focus := map (fun '(sid, title) => if (sid =? del_id)%Z then (keep_id, title) else (sid, title))
                   (window_focus_events db) in
  let keep_titles := map ocr_window_title
                       (filter (fun o => (ocr_session_id o =? keep_id)%Z) (session_ocr_cache db)) in
  let ocr1 := filter (fun o => negb ((ocr_session_id o =? del_id)%Z &&
                                     existsb (String.eqb (ocr_window_title o)) keep_titles))
                     (session_ocr_cache db) in
  let ocr2 := map (fun o => if (ocr_session_id o =? del_id)%Z
                            then mk_ocr keep_id (ocr_window_title o) (ocr_text o) else o) ocr1 in
  mk_db (activity_sessions db) shots focus ocr2.

(** [SELECT COUNT( * ) FROM session_screenshots WHERE session_id = ?] *)
Definition count_screenshots (db : database) (sid : Z) : Z :=
  Z.of_nat (List.length (filter (fun '(s, _) => (s =? sid)%Z) (session_screenshots db))).

Fixpoint titles_of (sid : Z) (events : list (Z * option string)) : list string :=
  match events with
  | [] => []
  | (s, Some t) :: rest => if (s =? sid)%Z then t :: titles_of sid rest else titles_of sid rest
  | (_, None) :: rest => titles_of sid rest
  end.

(** [SELECT COUNT(DISTINCT window_title) FROM window_focus_events WHERE session_id = ?] *)
Definition count_unique_windows (db : database) (sid : Z) : Z :=
  Z.of_nat (List.length (nodup string_dec (titles_of sid (window_focus_events db)))).

Definition update_row (sid : Z) (f : session_row -> session_row) (db : database) : database :=
  mk_db (map (fun r => if (id r =? sid)%Z then f r else r) (activity_sessions db))
        (session_screenshots db) (window_focus_events db) (session_ocr_cache db).

Definition delete_row (sid : Z) (db : database) : database :=
  mk_db (storage_delete_session (activity_sessions db) sid)
        (session_screenshots db) (window_focus_events db) (session_ocr_cache db).

(** [merge_chain(conn, chain, dry_run=False)]: the new database and the
    [merged_count] of its statistics.  [fromisoformat(None)] on an open
    last session raises [TypeError]. *)
Definition merge_chain (db : database) (chain : list Z) : result (database * nat) :=
  match chain with
  | [] | [_] => Ok (db, 0)
  | keep_id :: delete_ids =>
      match storage_get_session (activity_sessions db) keep_id,
            storage_get_session (activity_sessions db) (last chain 0%Z) with
      | Some first_session, Some last_session =>
          match end_time last_session with
          | None => Raise (mk_exn "TypeError" "fromisoformat: argument must be str")
          | Some new_end_time =>
              let new_duration := elapsed_seconds (start_time first_session) new_end_time in
              let db1 := fold_left (fun d del_id => move_donor keep_id del_id d) delete_ids db in
              let db2 := update_row keep_id
                           (fun r => mk_session (id r) (start_time r) (Some new_end_time)
                                       (Some new_duration) (screenshot_count r) (unique_windows r))
                           db1 in
              let sc := count_screenshots db2 keep_id in
              let uw := count_unique_windows db2 keep_id in
              let db3 := update_row keep_id
                           (fun r => mk_session (id r) (start_time r) (end_time r)
                                       (duration_seconds r) sc uw) db2 in
              let db4 := fold_left (fun d del_id => delete_row del_id d) delete_ids db3 in
              Ok (db4, List.length delete_ids)
          end
      | _, _ => Ok (db, 0)
      end
  end.

Fixpoint merge_chains (db : database) (chains : list (list Z)) : result database :=
  match chains with
  | [] => Ok db
  | chain :: rest =>
      match merge_chain db chain with
      | Ok (db', _) => merge_chains db' rest
      | Raise e => Raise e
      end
  end.

(** [main()] without [--dry-run], summaries left aside: find the pairs,
    return at once when there are none, otherwise build the chains and
    merge them one after the other. *)
Definition repair (db : database) (gap_threshold : Z) : result database :=
  match find_fragmented_pairs_with_threshold db gap_threshold with
  | [] => Ok db
  | pairs => merge_chains db (build_merge_chains pairs)
  end.

(** Where [merge_chain] re-points a child row [(session_id, x)]: to
    [keep] when its session is one of [dels]. *)
Definition relink {A : Type} (keep : Z) (dels : list Z) (p : Z * A) : Z * A :=
  let '(sid, x) := p in (if existsb (Z.eqb sid) dels then keep else sid, x).

(** The [UNIQUE (session_id, window_title)] key of [session_ocr_cache]. *)
Definition ocr_key (o : ocr_row) : Z * string := (ocr_session_id o, ocr_window_title o).

(** The foreign keys [session_id] of [session_screenshots] and
    [window_focus_events] name rows of [activity_sessions]. *)
Definition child_links_valid (db : database) : Prop :=
  (forall p, In p (session_screenshots db) -> In (fst p) (map id (activity_sessions db))) /\
  (forall p, In p (window_focus_events db) -> In (fst p) (map id (activity_sessions db))).

(* ------------------------------------------------------------------ *)
(** ** Shapes of merge chains *)

(** The id pairs a chain links: [[a; b; c]] links [(a, b)] and [(b, c)]. *)
Fixpoint chain_links (c : list Z) : list (Z * Z) :=
  match c with
  | x :: ((y :: _) as rest) => (x, y) :: chain_links rest
  | _ => []
  end.

(** A run of consecutive ids [x, x + 1, x + 2, ...]. *)
Fixpoint consecutive_run (c : list Z) : Prop :=
  match c with
  | x :: ((y :: _) as rest) => y = (x + 1)%Z /\ consecutive_run rest
  | _ => True
  end.

(** No chain ends with the id the next chain starts with. *)
Fixpoint chains_separated (cs : list (list Z)) : Prop :=
  match cs with
  | c1 :: ((c2 :: _) as rest) => last c1 0%Z <> hd 0%Z c2 /\ chains_separated rest
  | _ => True
  end.

(** A strictly increasing list of ids. *)
Fixpoint increasing (l : list Z) : Prop :=
  match l with
  | x :: ((y :: _) as rest) => (x < y)%Z /\ increasing rest
  | _ => True
  end.

(** [l] occurs as a contiguous block of [c]. *)
Definition infix_of {A : Type} (l c : list A) : Prop :=
  exists l1 l2, c = (l1 ++ l ++ l2)%list.

(** The sessions each chain keeps, and those it deletes. *)
Definition chain_heads (cs : list (list Z)) : list Z := map (hd 0%Z) cs.

Definition chain_tails (cs : list (list Z)) : list Z := List.concat (map (@tl Z) cs).

(** [r'] is the row [r] itself, or the row of a kept chain head: same id
    and start, closed end. *)
Definition row_origin (heads : list Z) (r r' : session_row) : Prop :=
  id r = id r' /\ start_time r = start_time r' /\
  (r' = r \/ (In (id r) heads /\ end_time r' <> None)).

(* ------------------------------------------------------------------ *)
(** ** Concrete inputs *)

(** A [9 x 10] greyscale grid whose rows strictly decrease from left to
    right: all 81 difference bits are set. *)
Definition falling_rows (hash_size : nat) : list Z :=
  List.concat (List.repeat (map Z.of_nat (List.rev (seq 0 (hash_size + 1)))) hash_size).

(** A manager with the default [min_session_minutes = 5] and one open
    session started at instant 0. *)
Definition manager_one_open : session_manager :=
  mk_manager [mk_session 1 0 None None 0 0] 5 (Some 1%Z) [].

(** Consecutive capture instants are less than [threshold] apart. *)
Fixpoint gaps_below (threshold : Z) (evs : list capture_event) : Prop :=
  match evs with
  | e1 :: ((e2 :: _) as rest) => (ts e2 - ts e1 < threshold)%Z /\ gaps_below threshold rest
  | _ => True
  end.

Definition two_close_captures : list capture_event :=
  [mk_event 0 (Captured "/s/a.webp" "0000000000000000") (Some "editor") None;
   mk_event (30 * usec_per_sec) (Captured "/s/b.webp" "ffffffffffffffff") (Some "editor") None].

(** [h:m:s] of one day, in microseconds. *)
Definition clock (h m s : Z) : Z := ((h * 3600 + m * 60 + s) * usec_per_sec)%Z.

Definition closed_session (sid start end_t : Z) : session_row :=
  mk_session sid start (Some end_t) (Some (elapsed_seconds start end_t)) 0 0.

(** Sessions 1..4: 9:00-10:30, 10:45-12:00, 13:00-15:00, 15:00:30-17:00. *)
Definition four_sessions : database :=
  mk_db [closed_session 1 (clock 9 0 0) (clock 10 30 0);
         closed_session 2 (clock 10 45 0) (clock 12 0 0);
         closed_session 3 (clock 13 0 0) (clock 15 0 0);
         closed_session 4 (clock 15 0 30) (clock 17 0 0)]
        [] [] [].

Definition pair_ids (p : frag_pair) : Z * Z := (s1_id p, s2_id p).

(** Three sessions 10 s apart, each with one linked screenshot, whose stored
    [screenshot_count] columns say 2. *)
Definition drifted_counts : database :=
  mk_db [mk_session 1 (clock 9 0 0) (Some (clock 9 30 0)) (Some 1800%Z) 2 1;
         mk_session 2 (clock 9 30 10) (Some (clock 10 0 0)) (Some 1790%Z) 2 1;
         mk_session 3 (clock 10 0 10) (Some (clock 10 30 0)) (Some 1790%Z) 2 1]
        [(1, 101); (2, 102); (3, 103)]%Z
        [(1, Some "editor"); (2, Some "editor"); (3, Some "browser")]%Z
        [].

(** [drifted_counts] with OCR rows: session 2 has an OCR text for the
    title [editor] that session 1 also has, and one for [browser]. *)
Definition overlapping_ocr : database :=
  mk_db (activity_sessions drifted_counts) (session_screenshots drifted_counts)
        (window_focus_events drifted_counts)
        [mk_ocr 1 "editor" "a"; mk_ocr 2 "editor" "b"; mk_ocr 2 "browser" "c"].

(* ================================================================== *)
(** * Properties *)

(* ------------------------------------------------------------------ *)
(** ** Hex parsing and formatting *)

Lemma parse_hex_aux_all_hex (s : string) (acc : N) :
  all_hex s = true -> exists n, parse_hex_aux s acc = Some n.
Proof.
  revert acc; induction s as [|c rest IH]; intros acc H; simpl in *.
  - eauto.
  - destruct (hex_digit_value c); [apply IH; exact H | discriminate].
Qed.

Lemma parse_hex_all_hex (s : string) :
  s <> "" -> all_hex s = true -> exists n, parse_hex s = Some n.
Proof.
  intros Hne H; destruct s as [|c rest]; [congruence|].
  unfold parse_hex; apply parse_hex_aux_all_hex; exact H.
Qed.

Lemma hex_digit_value_hex_char (d : N) :
  (d < 16)%N -> hex_digit_value (hex_char d) = Some d.
Proof.
  intros Hd.
  assert (d = 0 \/ d = 1 \/ d = 2 \/ d = 3 \/ d = 4 \/ d = 5 \/ d = 6 \/ d = 7 \/
          d = 8 \/ d = 9 \/ d = 10 \/ d = 11 \/ d = 12 \/ d = 13 \/ d = 14 \/ d = 15)%N
    as Hcases by lia.
  repeat (destruct Hcases as [-> | Hcases]; [reflexivity|]); subst; reflexivity.
Qed.





Lemma length_zeros (k : nat) : String.length (zeros k) = k.
Proof. induction k; simpl; auto. Qed.

Lemma length_string_append (s t : string) :
  String.length (s ++ t) = String.length s + String.length t.
Proof. induction s as [|c rest IH]; simpl; auto. Qed.

Lemma length_format_016x (n : N) :
  String.length (format_016x n) = Nat.max 16 (String.length (hex_string n)).
Proof.
  unfold format_016x; rewrite length_string_append, length_zeros; lia.
Qed.

Lemma length_hex_aux (fuel : nat) (n : N) (acc : string) (k : nat) :
  (n < 16 ^ N.of_nat k)%N ->
  (String.length (hex_aux fuel n acc) <= k + String.length acc)%nat.
Proof.
  revert n acc k; induction fuel as [|f IH]; intros n acc k Hn; simpl; [lia|].
  destruct n as [|p]; [lia|].
  destruct k as [|k].
  - simpl in Hn; lia.
  - assert (Hdiv : (N.pos p / 16 < 16 ^ N.of_nat k)%N).
    { apply N.Div0.div_lt_upper_bound.
      rewrite Nat2N.inj_succ, N.pow_succ_r' in Hn; exact Hn. }
    specialize (IH _ (String (hex_char (N.pos p mod 16)) acc) k Hdiv).
    simpl in IH; lia.
Qed.

Lemma length_hex_string (n : N) (k : nat) :
  (1 <= k)%nat -> (n < 16 ^ N.of_nat k)%N -> (String.length (hex_string n) <= k)%nat.
Proof.
  intros Hk Hn; unfold hex_string; destruct n as [|p]; simpl; [lia|].
  pose proof (length_hex_aux (Pos.size_nat p) (N.pos p) "" k Hn) as H.
  simpl in H; lia.
Qed.

(* ------------------------------------------------------------------ *)
(** ** The dhash bit vector *)

Lemma lor_lt_pow2 (a b k : N) :
  (a < 2 ^ k)%N -> (b < 2 ^ k)%N -> (N.lor a b < 2 ^ k)%N.
Proof.
  intros Ha Hb.
  destruct (N.eq_dec a 0) as [->|Ha0]; [rewrite N.lor_0_l; exact Hb|].
  destruct (N.eq_dec b 0) as [->|Hb0]; [rewrite N.lor_0_r; exact Ha|].
  assert (Hab : N.lor a b <> 0%N).
  { intros H0; apply N.lor_eq_0_iff in H0; tauto. }
  apply N.log2_lt_pow2; [lia|].
  rewrite N.log2_lor.
  apply N.log2_lt_pow2 in Ha; [|lia].
  apply N.log2_lt_pow2 in Hb; [|lia].
  lia.
Qed.

Lemma or_bits_lt (bits : list bool) (i acc : N) :
  (acc < 2 ^ i)%N -> (or_bits bits i acc < 2 ^ (i + N.of_nat (List.length bits)))%N.
Proof.
  revert i acc; induction bits as [|b rest IH]; intros i acc H;
    cbn [or_bits List.length].
  - rewrite N.add_0_r; exact H.
  - replace (i + N.of_nat (S (List.length rest)))%N
      with (i + 1 + N.of_nat (List.length rest))%N by lia.
    apply IH.
    assert (Hi : (2 ^ i < 2 ^ (i + 1))%N).
    { rewrite N.pow_add_r; simpl; lia. }
    destruct b; [|lia].
    apply lor_lt_pow2; [lia|].
    rewrite N.shiftl_1_l; exact Hi.
Qed.

Lemma differences_length (pixels : list Z) (idx : list nat) (bits : list bool) :
  differences pixels idx = Some bits -> List.length bits = List.length idx.
Proof.
  revert bits; induction idx as [|i rest IH]; intros bits H; cbn [differences] in H.
  - injection H as <-; reflexivity.
  - destruct (nth_error pixels i) as [l|], (nth_error pixels (S i)) as [r|];
      try discriminate.
    destruct (differences pixels rest) as [bs|] eqn:E; [|discriminate].
    injection H as <-; cbn [List.length]; f_equal; apply IH; reflexivity.
Qed.

Lemma differences_in_range (pixels : list Z) (idx : list nat) :
  (forall i, In i idx -> S i < List.length pixels) ->
  exists bits, differences pixels idx = Some bits.
Proof.
  induction idx as [|i rest IH]; intros H; [exists []; reflexivity|].
  assert (H1 : S i < List.length pixels) by (apply H; left; reflexivity).
  destruct (nth_error pixels i) as [a|] eqn:E1;
    [|apply nth_error_None in E1; lia].
  destruct (nth_error pixels (S i)) as [b|] eqn:E2;
    [|apply nth_error_None in E2; lia].
  destruct IH as [bits Hb]; [intros j Hj; apply H; right; exact Hj|].
  exists ((b <? a)%Z :: bits); cbn [differences].
  rewrite E1, E2, Hb; reflexivity.
Qed.

Lemma length_dhash_indices (hash_size : nat) :
  List.length (dhash_indices hash_size) = hash_size * hash_size.
Proof.
  unfold dhash_indices.
  assert (Hgen : forall rows : list nat,
    List.length (flat_map (fun row => map (fun col => row * (hash_size + 1) + col)
                                     (seq 0 hash_size)) rows)
    = List.length rows * hash_size).
  { induction rows as [|r rs IH]; simpl; [reflexivity|].
    rewrite length_app, length_map, length_seq, IH; reflexivity. }
  rewrite Hgen, length_seq; reflexivity.
Qed.

Lemma in_dhash_indices (hash_size i : nat) :
  In i (dhash_indices hash_size) ->
  exists row col, row < hash_size /\ col < hash_size /\ i = row * (hash_size + 1) + col.
Proof.
  unfold dhash_indices; intros H.
  apply in_flat_map in H as [row [Hrow Hi]].
  apply in_map_iff in Hi as [col [<- Hcol]].
  apply in_seq in Hrow; apply in_seq in Hcol.
  exists row, col; repeat split; lia.
Qed.

(** For a well-formed grid, [_generate_dhash] does not raise and its value
    fits in [hash_size * hash_size] bits. *)
Lemma generate_dhash_value (pixels : list Z) (hash_size : nat) :
  List.length pixels = (hash_size + 1) * hash_size ->
  exists v, generate_dhash pixels hash_size = Ok (format_016x v) /\
            (v < 2 ^ N.of_nat (hash_size * hash_size))%N.
Proof.
  intros Hlen.
  destruct (differences_in_range pixels (dhash_indices hash_size)) as [bits Hbits].
  { intros i Hi; apply in_dhash_indices in Hi as [row [col [Hr [Hc ->]]]].
    rewrite Hlen; nia. }
  exists (or_bits bits 0 0); unfold generate_dhash; rewrite Hbits; split; [reflexivity|].
  pose proof (or_bits_lt bits 0 0 ltac:(reflexivity)) as Hlt.
  rewrite (differences_length _ _ _ Hbits), length_dhash_indices in Hlt.
  exact Hlt.
Qed.

Lemma hamming_distance_hex (hash1 hash2 : string) :
  hash1 <> "" -> hash2 <> "" -> all_hex hash1 = true -> all_hex hash2 = true ->
  exists d, hamming_distance hash1 hash2 = Ok d.
Proof.
  intros Hn1 Hn2 Hh1 Hh2; unfold hamming_distance.
  destruct (negb _); [eauto|].
  destruct (parse_hex_all_hex hash1 Hn1 Hh1) as [n1 ->].
  destruct (parse_hex_all_hex hash2 Hn2 Hh2) as [n2 ->].
  eauto.
Qed.

(* ------------------------------------------------------------------ *)
(** ** Duplicate decision (daemon) *)

(** C3: [_should_skip_screenshot] answers [False] when there is no
    accepted hash or no candidate hash ([None] or [""]); otherwise, for
    hex hash strings, it does not raise and answers [True] exactly when the
    daemon's Hamming distance between the candidate and the last accepted
    hash is a number strictly below 3. *)
Theorem should_skip_decision (last_dhash current_dhash : option string) :
  (forall l, last_dhash = Some l -> all_hex l = true) ->
  (forall c, current_dhash = Some c -> all_hex c = true) ->
  ((truthy last_dhash = false \/ truthy current_dhash = false) ->
     should_skip last_dhash current_dhash = Ok false) /\
  (forall l c, last_dhash = Some l -> current_dhash = Some c -> l <> "" -> c <> "" ->
     exists d, hamming_distance c l = Ok d /\
       (should_skip last_dhash current_dhash = Ok true \/
        should_skip last_dhash current_dhash = Ok false) /\
       (should_skip last_dhash current_dhash = Ok true <->
        exists n, d = Fin n /\ (n < 3)%nat)).
Proof.
  intros Hl Hc; split.
  - intros [H | H]; unfold should_skip; rewrite H; simpl;
      [reflexivity | rewrite orb_true_r; reflexivity].
  - intros l c -> -> Hl0 Hc0.
    destruct (hamming_distance_hex c l Hc0 Hl0 (Hc c eq_refl) (Hl l eq_refl)) as [d Hd].
    exists d; split; [exact Hd|].
    assert (Hss : should_skip (Some l) (Some c) = Ok (distance_ltb d 3)).
    { unfold should_skip.
      replace (truthy (Some l)) with true
        by (destruct l; [congruence | reflexivity]).
      replace (truthy (Some c)) with true
        by (destruct c; [congruence | reflexivity]).
      simpl; rewrite Hd; reflexivity. }
    rewrite Hss; split.
    + destruct (distance_ltb d 3); auto.
    + destruct d as [n|]; simpl; split.
      * intros H; injection H as H; exists n; split; [reflexivity|].
        apply Nat.ltb_lt; exact H.
      * intros [m [Hm Hlt]]; injection Hm as <-.
        apply Nat.ltb_lt in Hlt; rewrite Hlt; reflexivity.
      * intros H; discriminate.
      * intros [m [Hm _]]; discriminate.
Qed.

Lemma should_skip_decision_witness :
  ((forall l, Some "00ff" = Some l -> all_hex l = true) /\
   (forall c, Some "01ff" = Some c -> all_hex c = true)) /\
  should_skip (Some "00ff") (Some "01ff") = Ok true.
Proof.
  split; [split; intros s Hs; injection Hs as <-; reflexivity|].
  destruct (should_skip_decision (Some "00ff") (Some "01ff")) as [_ H2];
    [intros s Hs; injection Hs as <-; reflexivity
    |intros s Hs; injection Hs as <-; reflexivity|].
  destruct (H2 "00ff" "01ff" eq_refl eq_refl ltac:(discriminate) ltac:(discriminate))
    as [d [Hd [_ Hiff]]].
  apply Hiff; vm_compute in Hd; injection Hd as <-.
  exists 1; split; [reflexivity | repeat constructor].
Defined.

(** C9: when the candidate hash and the last accepted hash have different
    lengths, the duplicate decision raises nothing and answers [False]
    ("not a duplicate"); this holds for any strings, hex or not. *)
Theorem should_skip_length_mismatch (last_dhash current_dhash : string) :
  String.length last_dhash <> String.length current_dhash ->
  should_skip (Some last_dhash) (Some current_dhash) = Ok false.
Proof.
  intros Hlen; unfold should_skip.
  destruct last_dhash as [|a l]; [reflexivity|].
  destruct current_dhash as [|b c]; [reflexivity|].
  simpl truthy; simpl negb; simpl orb.
  unfold hamming_distance.
  destruct (String.length (String b c) =? String.length (String a l))%nat eqn:E.
  - apply Nat.eqb_eq in E; congruence.
  - reflexivity.
Qed.

Lemma should_skip_length_mismatch_witness :
  String.length "0000000000000000" <> String.length "xyz" /\
  should_skip (Some "0000000000000000") (Some "xyz") = Ok false.
Proof.
  split; [discriminate|].
  apply should_skip_length_mismatch; discriminate.
Defined.

(* ------------------------------------------------------------------ *)
(** ** Hash comparison (capture) *)

(** C8, as the code has it: for hash strings of unequal length
    [compare_hashes] raises a [ValueError] with message
    "Hash lengths must be equal" and returns no distance; for non-empty
    hex strings of equal length it returns their Hamming distance, the
    number of set bits of [int(hash1, 16) ^ int(hash2, 16)]. *)
Theorem compare_hashes_lengths :
  (forall hash1 hash2 : string,
     String.length hash1 <> String.length hash2 ->
     compare_hashes hash1 hash2 = Raise (value_error "Hash lengths must be equal")) /\
  (forall hash1 hash2 : string,
     String.length hash1 = String.length hash2 ->
     hash1 <> "" -> all_hex hash1 = true -> all_hex hash2 = true ->
     exists n1 n2, parse_hex hash1 = Some n1 /\ parse_hex hash2 = Some n2 /\
       compare_hashes hash1 hash2 = Ok (popcount (N.lxor n1 n2))).
Proof.
  split.
  - intros h1 h2 Hlen; unfold compare_hashes.
    destruct (String.length h1 =? String.length h2)%nat eqn:E;
      [apply Nat.eqb_eq in E; congruence | reflexivity].
  - intros h1 h2 Hlen Hne H1 H2.
    assert (Hne2 : h2 <> "").
    { intros ->; destruct h1; [congruence | discriminate]. }
    destruct (parse_hex_all_hex h1 Hne H1) as [n1 P1].
    destruct (parse_hex_all_hex h2 Hne2 H2) as [n2 P2].
    exists n1, n2. split; [exact P1|]. split; [exact P2|].
    unfold compare_hashes. rewrite Hlen, Nat.eqb_refl; simpl.
    rewrite P1, P2. reflexivity.
Qed.

Lemma compare_hashes_lengths_witness :
  compare_hashes "00" "000" = Raise (value_error "Hash lengths must be equal") /\
  compare_hashes "0000000000000000" "ffffffffffffffff" = Ok 64.
Proof.
  split.
  - apply (proj1 compare_hashes_lengths); discriminate.
  - destruct (proj2 compare_hashes_lengths "0000000000000000" "ffffffffffffffff"
               eq_refl ltac:(discriminate) eq_refl eq_refl) as [n1 [n2 [P1 [P2 Hn]]]].
    rewrite Hn. vm_compute in P1, P2. injection P1 as <-. injection P2 as <-.
    vm_compute. reflexivity.
Defined.

(** C8 as stated fails: the error raised for unequal lengths is a
    [ValueError], not a [DimensionMismatch]. *)
Lemma compare_hashes_not_dimension_mismatch :
  ~ (exists e, compare_hashes "0" "00" = Raise e /\ exn_type e = "DimensionMismatch").
Proof.
  intros [e [He Ht]]; vm_compute in He; injection He as <-.
  vm_compute in Ht; discriminate.
Qed.

(* ------------------------------------------------------------------ *)
(** ** Width of the dhash string *)



(* ------------------------------------------------------------------ *)
(** ** Sessions and the capture loop *)

Lemma storage_get_session_delete (table : list session_row) (sid : Z) :
  storage_get_session (storage_delete_session table sid) sid = None.
Proof.
  unfold storage_get_session, storage_delete_session.
  induction table as [|r rest IH]; simpl; [reflexivity|].
  destruct (id r =? sid)%Z eqn:E; simpl; [exact IH|].
  rewrite E; exact IH.
Qed.

(** C4 (storage modelled from the spec): if the session exists and its
    whole seconds from [start_time] to the end instant are below
    [min_session_minutes] minutes, [end_session] deletes it and returns
    [None], and [get_session] no longer finds it. *)
Theorem end_session_short_deleted (m : session_manager) (session_id : Z)
    (end_time_arg : option Z) (now : Z) (session : session_row) :
  get_session m session_id = Some session ->
  (elapsed_seconds (start_time session)
     (match end_time_arg with Some e => e | None => now end)
   < 60 * min_session_minutes m)%Z ->
  snd (end_session m session_id end_time_arg now) = None /\
  get_session (fst (end_session m session_id end_time_arg now)) session_id = None.
Proof.
  intros Hget Hshort; unfold get_session in Hget.
  unfold end_session; rewrite Hget.
  apply Z.ltb_lt in Hshort; rewrite Hshort; simpl.
  split; [reflexivity|].
  unfold get_session; simpl; apply storage_get_session_delete.
Qed.

Lemma end_session_short_deleted_witness :
  (get_session manager_one_open 1 = Some (mk_session 1 0 None None 0 0) /\
   (elapsed_seconds 0 (120 * usec_per_sec) < 60 * min_session_minutes manager_one_open)%Z) /\
  snd (end_session manager_one_open 1 (Some (120 * usec_per_sec)%Z) 0) = None /\
  get_session (fst (end_session manager_one_open 1 (Some (120 * usec_per_sec)%Z) 0)) 1 = None.
Proof.
  assert (Hg : get_session manager_one_open 1 = Some (mk_session 1 0 None None 0 0))
    by reflexivity.
  assert (Hs : (elapsed_seconds 0 (120 * usec_per_sec)
                < 60 * min_session_minutes manager_one_open)%Z)
    by (vm_compute; reflexivity).
  split; [split; assumption|].
  exact (end_session_short_deleted manager_one_open 1 (Some (120 * usec_per_sec)%Z) 0
           (mk_session 1 0 None None 0 0) Hg Hs).
Defined.

Lemma daemon_tick_sessions infer (st : daemon_state) (ev : capture_event) :
  sessions (daemon_tick infer st ev) = sessions st.
Proof.
  unfold daemon_tick.
  destruct (capture ev) as [fp dh|e]; [|reflexivity].
  destruct (String.eqb fp ""); [reflexivity|].
  destruct (should_skip (last_dhash st) (Some dh)) as [[|]|e]; reflexivity.
Qed.

(** C1, as the code has it: the capture loop never touches the session
    table, whatever the captures and their timing: it creates no session. *)
Theorem daemon_run_sessions_unchanged infer (st : daemon_state) (inputs : list loop_input) :
  sessions (daemon_run infer st inputs) = sessions st.
Proof.
  revert st; induction inputs as [|[ev|] rest IH]; intros st; simpl.
  - reflexivity.
  - destruct (running st); [rewrite IH; apply daemon_tick_sessions | reflexivity].
  - rewrite IH; reflexivity.
Qed.

(** C1 as stated fails: two captures 30 s apart (under a 5-minute idle
    threshold) create no session at all, not one. *)
Lemma daemon_run_not_one_session :
  gaps_below (300 * usec_per_sec) two_close_captures /\
  sessions_created (fun app _ => app) (mk_daemon true None [] [])
    (map Tick two_close_captures) = 0 /\
  ~ (forall infer st (evs : list capture_event) (threshold : Z),
       evs <> [] -> gaps_below threshold evs ->
       sessions_created infer st (map Tick evs) = 1).
Proof.
  assert (Hg : gaps_below (300 * usec_per_sec) two_close_captures)
    by (vm_compute; tauto).
  assert (H0 : sessions_created (fun app _ => app) (mk_daemon true None [] [])
                 (map Tick two_close_captures) = 0) by reflexivity.
  split; [exact Hg|]; split; [exact H0|].
  intros H; specialize (H (fun app _ => app) (mk_daemon true None [] [])
                          two_close_captures _ ltac:(discriminate) Hg).
  rewrite H0 in H; discriminate.
Qed.

(* ------------------------------------------------------------------ *)
(** ** The repairer's gap finder on the four-session scenario *)

(** C2, as the code has it: the gap finder has only the upper bound
    [gap_threshold] and the lower bound [gap > 0]; with the 120-minute
    bound (7200 s) it finds three pairs, the 30-second gap included, and no
    threshold at all makes it find exactly the 15- and 60-minute gaps. *)
Theorem four_sessions_gaps :
  map (fun p => (s1_id p, s2_id p, gap_usec p))
      (find_fragmented_pairs_with_threshold four_sessions 7200)
  = [(1, 2, 900 * usec_per_sec); (2, 3, 3600 * usec_per_sec); (3, 4, 30 * usec_per_sec)]%Z /\
  (forall gap_threshold : Z,
     map pair_ids (find_fragmented_pairs_with_threshold four_sessions gap_threshold)
     <> [(1, 2); (2, 3)]%Z).
Proof.
  split; [vm_compute; reflexivity|].
  intros thr H.
  unfold find_fragmented_pairs_with_threshold, four_sessions in H.
  cbn -[Z.ltb Z.mul Z.sub clock usec_per_sec] in H.
  replace (clock 10 45 0 - clock 10 30 0)%Z with 900000000%Z in H by reflexivity.
  replace (clock 13 0 0 - clock 12 0 0)%Z with 3600000000%Z in H by reflexivity.
  replace (clock 15 0 30 - clock 15 0 0)%Z with 30000000%Z in H by reflexivity.
  unfold usec_per_sec in H.
  revert H.
  destruct (900000000 <? thr * 1000000)%Z eqn:E1,
           (3600000000 <? thr * 1000000)%Z eqn:E2,
           (30000000 <? thr * 1000000)%Z eqn:E3;
    cbn; intros H; try discriminate;
    repeat match goal with
           | E : (_ <? _)%Z = true |- _ => apply Z.ltb_lt in E
           | E : (_ <? _)%Z = false |- _ => apply Z.ltb_ge in E
           end; lia.
Qed.

(** C2 as stated fails: with the 120-minute bound the finder reports
    three gaps, the 30-second one among them. *)
Lemma four_sessions_not_two_gaps :
  ~ (List.length (find_fragmented_pairs_with_threshold four_sessions 7200) = 2%nat /\
     (forall p, In p (find_fragmented_pairs_with_threshold four_sessions 7200) ->
        gap_usec p <> (30 * usec_per_sec)%Z)).
Proof.
  intros [Hlen _]; vm_compute in Hlen; discriminate.
Qed.

(* ------------------------------------------------------------------ *)
(** ** Effects of [merge_chain] on the database *)

(** Split on every integer equality test left in the goal. *)
Ltac zeqb_cases :=
  repeat (match goal with |- context [(?a =? ?b)%Z] => destruct (Z.eqb_spec a b) end;
          simpl in * ).

Lemma move_donor_sessions (k d : Z) (db : database) :
  activity_sessions (move_donor k d db) = activity_sessions db.
Proof. reflexivity. Qed.

Lemma fold_move_donor_sessions (k : Z) (ds : list Z) (db : database) :
  activity_sessions (fold_left (fun db' d => move_donor k d db') ds db) = activity_sessions db.
Proof.
  revert db; induction ds as [|d ds IH]; intros db; simpl; [reflexivity|].
  rewrite IH; reflexivity.
Qed.

Lemma count_links_move (k d x : Z) (links : list (Z * Z)) :
  k <> d ->
  List.length (filter (fun '(s, _) => (s =? x)%Z)
     (map (fun '(sid, shot) => if (sid =? d)%Z then (k, shot) else (sid, shot)) links))
  = if (x =? k)%Z
    then (List.length (filter (fun '(s, _) => (s =? k)%Z) links) +
          List.length (filter (fun '(s, _) => (s =? d)%Z) links))%nat
    else if (x =? d)%Z then 0%nat
    else List.length (filter (fun '(s, _) => (s =? x)%Z) links).
Proof.
  intros Hkd.
  destruct (Z.eqb_spec x k) as [->|Hxk]; [|destruct (Z.eqb_spec x d) as [->|Hxd]];
    induction links as [|[s shot] rest IH]; simpl; try reflexivity;
    zeqb_cases; subst; try congruence; lia.
Qed.

Lemma count_screenshots_move (k d x : Z) (db : database) :
  k <> d ->
  count_screenshots (move_donor k d db) x =
  if (x =? k)%Z then (count_screenshots db k + count_screenshots db d)%Z
  else if (x =? d)%Z then 0%Z else count_screenshots db x.
Proof.
  intros Hkd; unfold count_screenshots, move_donor; simpl.
  rewrite (count_links_move k d x _ Hkd).
  destruct (x =? k)%Z; [lia|].
  destruct (x =? d)%Z; reflexivity.
Qed.

Lemma update_row_other (k : Z) (f : session_row -> session_row) (db : database) :
  session_screenshots (update_row k f db) = session_screenshots db /\
  window_focus_events (update_row k f db) = window_focus_events db.
Proof. split; reflexivity. Qed.

Lemma get_update (table : list session_row) (k x : Z) (f : session_row -> session_row) :
  (forall r, id (f r) = id r) ->
  storage_get_session (map (fun r => if (id r =? k)%Z then f r else r) table) x =
  if (x =? k)%Z then option_map f (storage_get_session table x)
  else storage_get_session table x.
Proof.
  intros Hf; unfold storage_get_session.
  destruct (Z.eqb_spec x k) as [->|Hxk];
    induction table as [|r rest IH]; simpl; try reflexivity;
    destruct (Z.eqb_spec (id r) k); simpl; rewrite ?Hf;
    zeqb_cases; subst; try congruence; auto.
Qed.

Lemma get_delete_other (table : list session_row) (d x : Z) :
  x <> d -> storage_get_session (storage_delete_session table d) x = storage_get_session table x.
Proof.
  intros Hxd; unfold storage_get_session, storage_delete_session.
  induction table as [|r rest IH]; simpl; [reflexivity|].
  destruct (id r =? d)%Z eqn:Erd; simpl.
  - rewrite IH.
    destruct (id r =? x)%Z eqn:Erx; [|reflexivity].
    apply Z.eqb_eq in Erd; apply Z.eqb_eq in Erx; congruence.
  - destruct (id r =? x)%Z; [reflexivity | exact IH].
Qed.

Lemma get_delete_none (table : list session_row) (d x : Z) :
  storage_get_session table x = None ->
  storage_get_session (storage_delete_session table d) x = None.
Proof.
  destruct (Z.eq_dec x d) as [->|Hxd].
  - intros _; apply storage_get_session_delete.
  - rewrite get_delete_other by exact Hxd; auto.
Qed.

(** C5, as the code has it: merging a chain [A; B; C] of three distinct,
    existing sessions whose last one is closed keeps [A] with its
    [start_time], [C]'s [end_time], and a [screenshot_count] recounted from
    [session_screenshots]: the links of [A], [B] and [C] together; [B] and
    [C] are deleted and the merge reports 2 merged sessions.  The result
    is the sum of the three stored [screenshot_count] values when these
    agree with the sessions' links. *)
Theorem merge_chain_three (db : database) (a b c : Z) (A B C : session_row) (c_end : Z) :
  a <> b -> b <> c -> a <> c ->
  storage_get_session (activity_sessions db) a = Some A ->
  storage_get_session (activity_sessions db) b = Some B ->
  storage_get_session (activity_sessions db) c = Some C ->
  end_time C = Some c_end ->
  exists db' A',
    merge_chain db [a; b; c] = Ok (db', 2%nat) /\
    storage_get_session (activity_sessions db') a = Some A' /\
    start_time A' = start_time A /\
    end_time A' = Some c_end /\
    screenshot_count A' =
      (count_screenshots db a + count_screenshots db b + count_screenshots db c)%Z /\
    (screenshot_count A = count_screenshots db a ->
     screenshot_count B = count_screenshots db b ->
     screenshot_count C = count_screenshots db c ->
     screenshot_count A' = (screenshot_count A + screenshot_count B + screenshot_count C)%Z) /\
    storage_get_session (activity_sessions db') b = None /\
    storage_get_session (activity_sessions db') c = None.
Proof.
  intros Hab Hbc Hac HA HB HC HCe.
  unfold merge_chain; cbn [last]; rewrite HA, HC, HCe.
  cbn [fold_left List.length].
  set (db1 := move_donor a c (move_donor a b db)).
  set (f2 := fun r => mk_session (id r) (start_time r) (Some c_end)
                       (Some (elapsed_seconds (start_time A) c_end))
                       (screenshot_count r) (unique_windows r)).
  set (db2 := update_row a f2 db1).
  set (f3 := fun r => mk_session (id r) (start_time r) (end_time r) (duration_seconds r)
                       (count_screenshots db2 a) (count_unique_windows db2 a)).
  set (db3 := update_row a f3 db2).
  assert (Hcount : count_screenshots db2 a =
                   (count_screenshots db a + count_screenshots db b + count_screenshots db c)%Z).
  { replace (count_screenshots db2 a) with (count_screenshots db1 a) by reflexivity.
    unfold db1; rewrite count_screenshots_move by exact Hac.
    rewrite Z.eqb_refl, !count_screenshots_move by exact Hab.
    rewrite Z.eqb_refl.
    destruct (Z.eqb_spec c a); [congruence|].
    destruct (Z.eqb_spec c b); [congruence|].
    lia. }
  assert (Hget3 : storage_get_session (activity_sessions db3) a = Some (f3 (f2 A))).
  { unfold db3, update_row; simpl.
    rewrite get_update by reflexivity; rewrite Z.eqb_refl.
    unfold db2, update_row; simpl.
    rewrite get_update by reflexivity; rewrite Z.eqb_refl.
    unfold db1; simpl; rewrite HA; reflexivity. }
  exists (delete_row c (delete_row b db3)), (f3 (f2 A)).
  split; [reflexivity|].
  unfold delete_row; simpl.
  split; [rewrite !get_delete_other by congruence; exact Hget3|].
  split; [reflexivity|].
  split; [reflexivity|].
  split; [simpl; exact Hcount|].
  split; [intros H1 H2 H3; simpl; rewrite Hcount, H1, H2, H3; reflexivity|].
  split.
  - rewrite get_delete_other by congruence; apply storage_get_session_delete.
  - apply storage_get_session_delete.
Qed.

Lemma merge_chain_three_witness :
  exists db' A',
    merge_chain drifted_counts [1; 2; 3]%Z = Ok (db', 2%nat) /\
    storage_get_session (activity_sessions db') 1 = Some A' /\
    screenshot_count A' = 3%Z.
Proof.
  destruct (merge_chain_three drifted_counts 1 2 3
              (mk_session 1 (clock 9 0 0) (Some (clock 9 30 0)) (Some 1800%Z) 2 1)
              (mk_session 2 (clock 9 30 10) (Some (clock 10 0 0)) (Some 1790%Z) 2 1)
              (mk_session 3 (clock 10 0 10) (Some (clock 10 30 0)) (Some 1790%Z) 2 1)
              (clock 10 30 0)
              ltac:(discriminate) ltac:(discriminate) ltac:(discriminate)
              eq_refl eq_refl eq_refl eq_refl)
    as [db' [A' [Hm [Hg [_ [_ [Hc _]]]]]]].
  exists db', A'; split; [exact Hm|]; split; [exact Hg|].
  rewrite Hc; reflexivity.
Defined.

(** C5 as stated fails: the repairer chains the three sessions and the
    merged [screenshot_count] is 3, the number of links, not 6, the sum of
    the stored counts. *)
Lemma merge_chain_count_not_stored_sum :
  map pair_ids (find_fragmented_pairs_with_threshold drifted_counts 60) = [(1, 2); (2, 3)]%Z /\
  build_merge_chains (find_fragmented_pairs_with_threshold drifted_counts 60) = [[1; 2; 3]]%Z /\
  ~ (exists db' n A',
       merge_chain drifted_counts [1; 2; 3]%Z = Ok (db', n) /\
       storage_get_session (activity_sessions db') 1 = Some A' /\
       screenshot_count A' = (2 + 2 + 2)%Z).
Proof.
  split; [vm_compute; reflexivity|].
  split; [vm_compute; reflexivity|].
  intros [db' [n [A' [Hm [Hg Hc]]]]].
  vm_compute in Hm; injection Hm as <- <-.
  vm_compute in Hg; injection Hg as <-.
  vm_compute in Hc; discriminate.
Qed.

(* ------------------------------------------------------------------ *)
(** ** Chains built by [build_merge_chains] *)

Lemma chain_links_cons2 (x y : Z) (l : list Z) :
  chain_links (x :: y :: l) = (x, y) :: chain_links (y :: l).
Proof. reflexivity. Qed.

Lemma chain_links_snoc (c : list Z) (y : Z) :
  c <> [] -> chain_links (c ++ [y])%list = (chain_links c ++ [(last c 0%Z, y)])%list.
Proof.
  induction c as [|x c IH]; intros Hc; [congruence|].
  destruct c as [|x' c']; [reflexivity|].
  rewrite <- app_comm_cons, <- app_comm_cons, chain_links_cons2, app_comm_cons.
  rewrite IH by discriminate.
  rewrite chain_links_cons2. reflexivity.
Qed.

Lemma last_snoc (c : list Z) (y d : Z) : last (c ++ [y])%list d = y.
Proof. apply last_last. Qed.

Lemma hd_app_nonempty (c l : list Z) (d : Z) : c <> [] -> hd d (c ++ l)%list = hd d c.
Proof. destruct c; [congruence|reflexivity]. Qed.

Lemma build_chains_from_links chains cur pairs :
  cur <> [] ->
  List.concat (map chain_links (build_chains_from chains cur pairs)) =
  (List.concat (map chain_links chains) ++ chain_links cur ++ map pair_ids pairs)%list.
Proof.
  revert chains cur. induction pairs as [|p rest IH]; intros chains cur Hc; simpl.
  - rewrite map_app, concat_app. simpl. rewrite !app_nil_r. reflexivity.
  - destruct (Z.eqb_spec (s1_id p) (last cur 0%Z)) as [E|E].
    + rewrite IH by (destruct cur; discriminate).
      rewrite chain_links_snoc by assumption.
      rewrite <- !app_assoc. simpl. rewrite <- E. reflexivity.
    + rewrite IH by discriminate.
      rewrite map_app, concat_app. simpl. rewrite app_nil_r, <- !app_assoc. reflexivity.
Qed.

Lemma consecutive_run_snoc (c : list Z) (y : Z) :
  c <> [] -> consecutive_run c -> y = (last c 0 + 1)%Z -> consecutive_run (c ++ [y])%list.
Proof.
  induction c as [|x c IH]; intros Hc Hr Hy; [congruence|].
  destruct c as [|x' c']; [simpl in *; subst; tauto|].
  rewrite <- app_comm_cons, <- app_comm_cons.
  destruct Hr as [Hx Hr]. split; [exact Hx|].
  rewrite app_comm_cons. apply IH; [discriminate|exact Hr|exact Hy].
Qed.

Lemma build_chains_from_runs chains cur pairs :
  Forall (fun p => s2_id p = (s1_id p + 1)%Z) pairs ->
  (2 <= List.length cur)%nat -> consecutive_run cur ->
  Forall (fun c => (2 <= List.length c)%nat /\ consecutive_run c) chains ->
  Forall (fun c => (2 <= List.length c)%nat /\ consecutive_run c)
         (build_chains_from chains cur pairs).
Proof.
  revert chains cur. induction pairs as [|p rest IH]; intros chains cur Hs Hl Hr Hcs;
    inversion Hs as [|? ? Hp Hs']; subst; simpl.
  - apply Forall_app; split; [exact Hcs|constructor; [tauto|constructor]].
  - destruct (Z.eqb_spec (s1_id p) (last cur 0%Z)) as [E|E].
    + apply IH; [exact Hs'| |apply consecutive_run_snoc| exact Hcs].
      * rewrite length_app. simpl. lia.
      * destruct cur; [simpl in Hl; lia|discriminate].
      * exact Hr.
      * rewrite Hp, E. reflexivity.
    + apply IH; [exact Hs'|simpl; lia|simpl; rewrite Hp; tauto|].
      apply Forall_app; split; [exact Hcs|constructor; [tauto|constructor]].
Qed.

Lemma chains_separated_snoc2 (l : list (list Z)) (c1 c2 : list Z) :
  chains_separated (l ++ [c1])%list -> last c1 0%Z <> hd 0%Z c2 ->
  chains_separated (l ++ [c1; c2])%list.
Proof.
  induction l as [|a l IH]; intros H Hn; [simpl; tauto|].
  destruct l as [|b l'].
  - simpl in *. tauto.
  - rewrite <- !app_comm_cons in *. destruct H as [H1 H2]. split; [exact H1|].
    rewrite app_comm_cons. apply IH; [exact H2|exact Hn].
Qed.

Lemma chains_separated_replace_last (l : list (list Z)) (c c' : list Z) :
  hd 0%Z c = hd 0%Z c' ->
  chains_separated (l ++ [c])%list -> chains_separated (l ++ [c'])%list.
Proof.
  intros Hh. induction l as [|a l IH]; intros H; [exact I|].
  destruct l as [|b l'].
  - simpl in *. rewrite <- Hh. tauto.
  - rewrite <- !app_comm_cons in *. destruct H as [H1 H2]. split; [exact H1|].
    rewrite app_comm_cons. apply IH. exact H2.
Qed.

Lemma build_chains_from_separated chains cur pairs :
  cur <> [] -> chains_separated (chains ++ [cur])%list ->
  chains_separated (build_chains_from chains cur pairs).
Proof.
  revert chains cur. induction pairs as [|p rest IH]; intros chains cur Hc H; simpl; [exact H|].
  destruct (Z.eqb_spec (s1_id p) (last cur 0%Z)) as [E|E].
  - apply IH; [destruct cur; [congruence|discriminate]|].
    apply (chains_separated_replace_last _ cur); [|exact H].
    symmetry. apply hd_app_nonempty. exact Hc.
  - apply IH; [discriminate|]. rewrite <- app_assoc. simpl.
    apply chains_separated_snoc2; [exact H|simpl; congruence].
Qed.

Lemma build_chains_from_keeps chains cur pairs c :
  In c chains -> In c (build_chains_from chains cur pairs).
Proof.
  revert chains cur. induction pairs as [|p rest IH]; intros chains cur H; simpl.
  - apply in_or_app. left. exact H.
  - destruct (s1_id p =? last cur 0)%Z; apply IH; [exact H|].
    apply in_or_app. left. exact H.
Qed.

Lemma build_chains_from_extends chains cur pairs :
  exists ext, In (cur ++ ext)%list (build_chains_from chains cur pairs).
Proof.
  revert chains cur. induction pairs as [|p rest IH]; intros chains cur; simpl.
  - exists []. rewrite app_nil_r. apply in_or_app. right. left. reflexivity.
  - destruct (s1_id p =? last cur 0)%Z.
    + destruct (IH chains (cur ++ [s2_id p])%list) as [ext Hin].
      exists (s2_id p :: ext). rewrite <- app_assoc in Hin. exact Hin.
    + exists []. rewrite app_nil_r. apply build_chains_from_keeps.
      apply in_or_app. right. left. reflexivity.
Qed.

Lemma build_chains_from_join chains pre a b q post :
  s1_id q = b ->
  exists ch, In ch (build_chains_from chains (pre ++ [a; b])%list (q :: post)) /\
             infix_of [a; b; s2_id q] ch.
Proof.
  intros Hq. simpl.
  replace (last (pre ++ [a; b])%list 0%Z) with b
    by (replace (pre ++ [a; b])%list with ((pre ++ [a]) ++ [b])%list
          by (rewrite <- app_assoc; reflexivity); symmetry; apply last_last).
  rewrite Hq, Z.eqb_refl.
  destruct (build_chains_from_extends chains ((pre ++ [a; b]) ++ [s2_id q])%list post)
    as [ext Hin].
  eexists. split; [exact Hin|]. exists pre, ext.
  rewrite <- !app_assoc. reflexivity.
Qed.

Lemma build_chains_from_transitive pre chains cur p q post :
  cur <> [] -> s1_id q = s2_id p ->
  exists ch, In ch (build_chains_from chains cur (pre ++ p :: q :: post)%list) /\
             infix_of [s1_id p; s2_id p; s2_id q] ch.
Proof.
  revert chains cur. induction pre as [|x pre IH]; intros chains cur Hc Hq.
  - simpl app. cbn [build_chains_from].
    destruct (Z.eqb_spec (s1_id p) (last cur 0%Z)) as [E|E].
    + rewrite (app_removelast_last 0%Z Hc), <- app_assoc. simpl app.
      rewrite <- E. apply build_chains_from_join. exact Hq.
    + apply (build_chains_from_join _ []). exact Hq.
  - rewrite <- app_comm_cons. cbn [build_chains_from].
    destruct (s1_id x =? last cur 0)%Z; apply IH; try exact Hq.
    + destruct cur; [congruence|discriminate].
    + discriminate.
Qed.

Lemma increasing_tail (x : Z) (l : list Z) : increasing (x :: l) -> increasing l.
Proof. destruct l; simpl; tauto. Qed.

Lemma increasing_forall (x : Z) (l : list Z) :
  increasing (x :: l) -> Forall (fun y => (x < y)%Z) l.
Proof.
  revert x. induction l as [|y l IH]; intros x H; constructor.
  - exact (proj1 H).
  - destruct H as [Hxy H]. specialize (IH y H).
    eapply Forall_impl; [|exact IH]. simpl. intros. lia.
Qed.

Lemma increasing_cons (x : Z) (l : list Z) :
  Forall (fun y => (x < y)%Z) l -> increasing l -> increasing (x :: l).
Proof. destruct l as [|y l]; [trivial|]. intros Hf Hl. inversion Hf. simpl. tauto. Qed.

Lemma consecutive_run_hd_le (c : list Z) :
  consecutive_run c -> Forall (fun x => (hd 0 c <= x)%Z) c.
Proof.
  induction c as [|x l IH]; intros H; [constructor|].
  destruct l as [|y l]; [constructor; [simpl; lia|constructor]|].
  destruct H as [Hy H]. specialize (IH H). simpl in IH |- *.
  constructor; [lia|]. eapply Forall_impl; [|exact IH]. simpl. intros. lia.
Qed.

Lemma pairs_adjacent (ps : list frag_pair) (a b c : Z) :
  Forall (fun p => s2_id p = (s1_id p + 1)%Z) ps ->
  increasing (map s1_id ps) ->
  In (a, b) (map pair_ids ps) -> In (b, c) (map pair_ids ps) ->
  exists pre p q post, ps = (pre ++ p :: q :: post)%list /\
                       pair_ids p = (a, b) /\ pair_ids q = (b, c).
Proof.
  induction ps as [|x ps IH]; intros Hs Hinc Hab Hbc; [destruct Hab|].
  inversion Hs as [|? ? Hx Hs']; subst.
  assert (Hlt : Forall (fun y => (s1_id x < y)%Z) (map s1_id ps))
    by exact (increasing_forall _ _ Hinc).
  rewrite Forall_map in Hlt.
  destruct Hab as [Hab|Hab].
  - unfold pair_ids in Hab. injection Hab as Ha Hb.
    destruct Hbc as [Hbc|Hbc].
    + unfold pair_ids in Hbc. injection Hbc as Hb' Hc'. lia.
    + destruct ps as [|y ps]; [destruct Hbc|].
      destruct Hbc as [Hbc|Hbc].
      * exists [], x, y, ps. split; [reflexivity|]. split; [unfold pair_ids; congruence|exact Hbc].
      * exfalso. apply in_map_iff in Hbc as [z [Hz Hin]].
        unfold pair_ids in Hz. injection Hz as Hz1 Hz2.
        inversion Hlt as [|? ? Hy _]; subst.
        assert (Hlt2 : Forall (fun w => (s1_id y < w)%Z) (map s1_id ps))
          by exact (increasing_forall _ _ (increasing_tail _ _ Hinc)).
        rewrite Forall_map in Hlt2. rewrite Forall_forall in Hlt2.
        specialize (Hlt2 z Hin). lia.
  - destruct Hbc as [Hbc|Hbc].
    + exfalso. apply in_map_iff in Hab as [z [Hz Hin]].
      unfold pair_ids in Hz, Hbc. injection Hz as Hz1 Hz2. injection Hbc as Hb1 Hc1.
      rewrite Forall_forall in Hlt, Hs'. specialize (Hlt z Hin). specialize (Hs' z Hin). lia.
    + destruct (IH Hs' (increasing_tail _ _ Hinc) Hab Hbc) as (pre & p & q & post & E & Hp & Hq).
      exists (x :: pre), p, q, post. rewrite E. auto.
Qed.

(* ------------------------------------------------------------------ *)
(** ** Pairs found by [find_fragmented_pairs_with_threshold] *)

Lemma storage_get_session_id table sid r :
  storage_get_session table sid = Some r -> id r = sid /\ In r table.
Proof.
  unfold storage_get_session. intros H.
  destruct (find_some _ _ H) as [Hin Heq]. apply Z.eqb_eq in Heq. auto.
Qed.

Lemma fragmented_pair_ids table thr s1 p :
  fragmented_pair table thr s1 = Some p ->
  s1_id p = id s1 /\ s2_id p = (id s1 + 1)%Z.
Proof.
  unfold fragmented_pair.
  destruct (storage_get_session table (id s1 + 1)) as [s2|] eqn:G; [|discriminate].
  destruct (end_time s1) as [e1|]; [|discriminate].
  destruct (end_time s2) as [e2|]; [|discriminate].
  destruct (_ && _); [|discriminate].
  intros H. injection H as <-. simpl.
  apply storage_get_session_id in G. tauto.
Qed.

Lemma collect_pairs_shape table rows thr :
  Forall (fun p => s2_id p = (s1_id p + 1)%Z) (collect_pairs table rows thr).
Proof.
  induction rows as [|r rows IH]; simpl; [constructor|].
  destruct (fragmented_pair table thr r) as [p|] eqn:F; [|exact IH].
  constructor; [|exact IH].
  destruct (fragmented_pair_ids _ _ _ _ F) as [-> ->]. reflexivity.
Qed.

Lemma collect_pairs_in table rows thr p :
  In p (collect_pairs table rows thr) ->
  exists s1, In s1 rows /\ fragmented_pair table thr s1 = Some p.
Proof.
  induction rows as [|r rows IH]; simpl; [tauto|].
  destruct (fragmented_pair table thr r) as [q|] eqn:F.
  - intros [<-|H]; [exists r; auto|].
    destruct (IH H) as [s1 [Hin Hs]]. exists s1; auto.
  - intros H. destruct (IH H) as [s1 [Hin Hs]]. exists s1; auto.
Qed.

Lemma collect_pairs_increasing table rows thr :
  increasing (map id rows) -> increasing (map s1_id (collect_pairs table rows thr)).
Proof.
  induction rows as [|r rows IH]; intros Hinc; simpl; [exact I|].
  pose proof (IH (increasing_tail _ _ Hinc)) as IH'.
  destruct (fragmented_pair table thr r) as [p|] eqn:F; [|exact IH'].
  simpl. apply increasing_cons; [|exact IH'].
  assert (Hlt : Forall (fun y => (id r < y)%Z) (map id rows))
    by exact (increasing_forall _ _ Hinc).
  rewrite Forall_map, Forall_forall in Hlt. rewrite Forall_map, Forall_forall.
  intros q Hq. destruct (collect_pairs_in _ _ _ _ Hq) as [s1 [Hin Hs]].
  destruct (fragmented_pair_ids _ _ _ _ F) as [-> _].
  destruct (fragmented_pair_ids _ _ _ _ Hs) as [-> _]. exact (Hlt s1 Hin).
Qed.

Lemma build_merge_chains_transitive (ps : list frag_pair) (a b c : Z) :
  Forall (fun p => s2_id p = (s1_id p + 1)%Z) ps ->
  increasing (map s1_id ps) ->
  In (a, b) (map pair_ids ps) -> In (b, c) (map pair_ids ps) ->
  exists ch, In ch (build_merge_chains ps) /\ infix_of [a; b; c] ch.
Proof.
  intros Hs Hinc Hab Hbc.
  destruct (pairs_adjacent ps a b c Hs Hinc Hab Hbc) as (pre & p & q & post & -> & Hp & Hq).
  unfold pair_ids in Hp, Hq. injection Hp as <- <-. injection Hq as Hq1 <-.
  destruct pre as [|p0 pre].
  - apply (build_chains_from_join [] [] (s1_id p) (s2_id p) q post). exact Hq1.
  - apply build_chains_from_transitive; [discriminate|exact Hq1].
Qed.

Lemma build_merge_chains_links (ps : list frag_pair) :
  List.concat (map chain_links (build_merge_chains ps)) = map pair_ids ps.
Proof.
  destruct ps as [|p0 rest]; [reflexivity|]. unfold build_merge_chains.
  rewrite build_chains_from_links by discriminate. reflexivity.
Qed.

(** C6: for every session table in id order, the chains that
    [build_merge_chains] builds from the found pairs are runs of at least two
    consecutive ids; read one after the other their links are exactly the
    found pairs, in order; no chain ends where the next one starts, so each
    maximal run of linked pairs is one chain; and when [(a, b)] and [(b, c)]
    are both found, [a], [b], [c] stand in this order inside one chain whose
    first id is its smallest. *)
Theorem build_merge_chains_runs (db : database) (gap_threshold : Z) :
  increasing (map id (activity_sessions db)) ->
  let pairs := find_fragmented_pairs_with_threshold db gap_threshold in
  let chains := build_merge_chains pairs in
  Forall (fun ch => (2 <= List.length ch)%nat /\ consecutive_run ch) chains /\
  List.concat (map chain_links chains) = map pair_ids pairs /\
  chains_separated chains /\
  (forall a b c, In (a, b) (map pair_ids pairs) -> In (b, c) (map pair_ids pairs) ->
     exists ch, In ch chains /\ infix_of [a; b; c] ch /\
                Forall (fun x => (hd 0%Z ch <= x)%Z) ch).
Proof.
  intros Hinc pairs chains.
  pose proof (collect_pairs_shape (activity_sessions db) (activity_sessions db) gap_threshold)
    as Hs.
  pose proof (collect_pairs_increasing (activity_sessions db) (activity_sessions db)
                gap_threshold Hinc) as Hpi.
  fold (find_fragmented_pairs_with_threshold db gap_threshold) in Hs, Hpi. fold pairs in Hs, Hpi.
  assert (Hruns : Forall (fun ch => (2 <= List.length ch)%nat /\ consecutive_run ch) chains).
  { unfold chains. destruct pairs as [|p0 rest]; [constructor|].
    inversion Hs as [|? ? Hp0 Hs']; subst.
    apply build_chains_from_runs; [exact Hs'|simpl; lia|simpl; rewrite Hp0; tauto|constructor]. }
  split; [exact Hruns|].
  split; [apply build_merge_chains_links|].
  split.
  - unfold chains. destruct pairs as [|p0 rest]; [exact I|].
    apply build_chains_from_separated; [discriminate|exact I].
  - intros a b c Hab Hbc.
    destruct (build_merge_chains_transitive pairs a b c Hs Hpi Hab Hbc) as [ch [Hin Hinf]].
    exists ch. split; [exact Hin|]. split; [exact Hinf|].
    rewrite Forall_forall in Hruns. apply consecutive_run_hd_le. exact (proj2 (Hruns ch Hin)).
Qed.

Lemma build_merge_chains_runs_witness :
  increasing (map id (activity_sessions four_sessions)) /\
  List.concat (map chain_links
                 (build_merge_chains (find_fragmented_pairs_with_threshold four_sessions 7200)))
  = map pair_ids (find_fragmented_pairs_with_threshold four_sessions 7200).
Proof.
  assert (H : increasing (map id (activity_sessions four_sessions)))
    by (simpl; repeat split; lia).
  split; [exact H|].
  destruct (build_merge_chains_runs four_sessions 7200 H) as (_ & Hl & _).
  exact Hl.
Defined.

(* ------------------------------------------------------------------ *)
(** ** Rows after a merge *)

Lemma storage_get_session_present table sid :
  (exists r, In r table /\ id r = sid) ->
  exists r, storage_get_session table sid = Some r.
Proof.
  intros [r [Hin Hid]]. unfold storage_get_session.
  destruct (find (fun r0 => (id r0 =? sid)%Z) table) as [r'|] eqn:F; [eauto|].
  pose proof (find_none _ _ F r Hin) as H. simpl in H. rewrite Hid, Z.eqb_refl in H.
  discriminate.
Qed.

Lemma in_delete_rows (dels : list Z) (db : database) r :
  In r (activity_sessions (fold_left (fun d del_id => delete_row del_id d) dels db)) <->
  In r (activity_sessions db) /\ ~ In (id r) dels.
Proof.
  revert db. induction dels as [|x dels IH]; intros db; simpl; [tauto|].
  rewrite IH. unfold delete_row, storage_delete_session. simpl.
  rewrite filter_In. destruct (Z.eqb_spec (id r) x); simpl; intuition congruence.
Qed.

Lemma merge_chain_rows (db db1 : database) (c : list Z) (n : nat) :
  (2 <= List.length c)%nat ->
  (exists r, In r (activity_sessions db) /\ id r = hd 0%Z c) ->
  (exists r, In r (activity_sessions db) /\ id r = last c 0%Z) ->
  merge_chain db c = Ok (db1, n) ->
  (forall r1, In r1 (activity_sessions db1) ->
     ~ In (id r1) (tl c) /\
     exists r, In r (activity_sessions db) /\ row_origin [hd 0%Z c] r r1) /\
  (forall r, In r (activity_sessions db) -> ~ In (id r) c -> In r (activity_sessions db1)).
Proof.
  intros Hlen Hk Hl Hm.
  destruct c as [|k [|d dels]]; simpl in Hlen; try lia.
  apply storage_get_session_present in Hk as [fs Hfs].
  apply storage_get_session_present in Hl as [ls Hls].
  unfold merge_chain in Hm. simpl hd in Hfs. rewrite Hfs, Hls in Hm.
  destruct (end_time ls) as [new_end|]; [|discriminate].
  injection Hm as <- _.
  split.
  - intros r1 Hin. apply in_delete_rows in Hin as [Hin Hnot].
    cbn [delete_row activity_sessions] in Hin. unfold storage_delete_session in Hin.
    apply filter_In in Hin as [Hin Hd].
    split; [simpl; intros [E|E]; [rewrite E, Z.eqb_refl in Hd; discriminate|exact (Hnot E)]|].
    cbn [update_row activity_sessions] in Hin.
    rewrite fold_move_donor_sessions, move_donor_sessions, map_map in Hin.
    apply in_map_iff in Hin as [r [<- Hr]].
    exists r. split; [exact Hr|].
    unfold row_origin. destruct (Z.eqb_spec (id r) k) as [E|E].
    + assert (Ek : (id r =? k)%Z = true) by (apply Z.eqb_eq; exact E).
      simpl. rewrite ?Ek. simpl.
      split; [reflexivity|]. split; [reflexivity|]. right. split; [left; auto|discriminate].
    + assert (Ek : (id r =? k)%Z = false) by (apply Z.eqb_neq; exact E).
      simpl. rewrite ?Ek.
      split; [reflexivity|]. split; [reflexivity|]. left. reflexivity.
  - intros r Hr Hnot. apply in_delete_rows.
    split; [|intros H; apply Hnot; right; right; exact H].
    cbn [delete_row activity_sessions]. unfold storage_delete_session. apply filter_In.
    split; [|apply negb_true_iff, Z.eqb_neq; intros E; apply Hnot; right; left; auto].
    cbn [update_row activity_sessions].
    rewrite fold_move_donor_sessions, move_donor_sessions, map_map. apply in_map_iff.
    exists r. split; [|exact Hr].
    assert (E : (id r =? k)%Z = false) by (apply Z.eqb_neq; intros E; apply Hnot; left; auto).
    rewrite E. simpl. rewrite E. reflexivity.
Qed.

Lemma increasing_cons2 (x y : Z) (l : list Z) :
  increasing (x :: y :: l) <-> (x < y)%Z /\ increasing (y :: l).
Proof. reflexivity. Qed.

Lemma increasing_snoc (l : list Z) (y : Z) :
  increasing l -> (l <> [] -> (last l 0 < y)%Z) -> increasing (l ++ [y])%list.
Proof.
  induction l as [|a l IH]; intros H Hy; [exact I|].
  destruct l as [|b l].
  - simpl in *. split; [apply Hy; discriminate|exact I].
  - rewrite <- !app_comm_cons, increasing_cons2. rewrite increasing_cons2 in H.
    destruct H as [Hab H]. split; [exact Hab|].
    rewrite app_comm_cons. apply IH; [exact H|]. intros _. apply Hy. discriminate.
Qed.

Lemma increasing_app_r (l1 l2 : list Z) : increasing (l1 ++ l2)%list -> increasing l2.
Proof.
  induction l1 as [|a l1 IH]; intros H; [exact H|].
  apply IH. rewrite <- app_comm_cons in H. exact (increasing_tail _ _ H).
Qed.

Lemma increasing_In_app (l1 l2 : list Z) (x y : Z) :
  increasing (l1 ++ l2)%list -> In x l1 -> In y l2 -> (x < y)%Z.
Proof.
  induction l1 as [|a l1 IH]; intros H Hx Hy; [destruct Hx|].
  rewrite <- app_comm_cons in H. destruct Hx as [<-|Hx].
  - pose proof (increasing_forall _ _ H) as Hf. rewrite Forall_forall in Hf.
    apply Hf, in_or_app. right. exact Hy.
  - exact (IH (increasing_tail _ _ H) Hx Hy).
Qed.

Lemma last_app_nonempty (l1 l2 : list Z) (d : Z) :
  l2 <> [] -> last (l1 ++ l2)%list d = last l2 d.
Proof.
  intros H. rewrite (app_removelast_last d H), app_assoc, !last_last. reflexivity.
Qed.

Lemma last_In_nonempty (l : list Z) (d : Z) : l <> [] -> In (last l d) l.
Proof.
  intros H. rewrite (app_removelast_last d H) at 2. apply in_or_app. right. left.
  reflexivity.
Qed.

Lemma build_chains_from_increasing chains cur pairs :
  cur <> [] -> increasing (List.concat chains ++ cur)%list ->
  Forall (fun p => s2_id p = (s1_id p + 1)%Z) pairs ->
  increasing (map s1_id pairs) ->
  Forall (fun p => (last cur 0 <= s1_id p)%Z) pairs ->
  increasing (List.concat (build_chains_from chains cur pairs)).
Proof.
  revert chains cur. induction pairs as [|p rest IH]; intros chains cur Hc Hi Hs Hps Hle; simpl.
  - rewrite concat_app. simpl. rewrite app_nil_r. exact Hi.
  - inversion Hs as [|? ? Hp Hs']; subst. inversion Hle as [|? ? Hpl Hle']; subst.
    assert (Hlt : Forall (fun y => (s1_id p < y)%Z) (map s1_id rest))
      by exact (increasing_forall _ _ Hps).
    rewrite Forall_map, Forall_forall in Hlt.
    pose proof (increasing_tail _ _ Hps) as Hps'.
    destruct (Z.eqb_spec (s1_id p) (last cur 0%Z)) as [E|E].
    + apply IH; [destruct cur; [congruence|discriminate]| | exact Hs' | exact Hps' |].
      * rewrite app_assoc. apply increasing_snoc; [exact Hi|].
        intros _. rewrite last_app_nonempty by exact Hc. lia.
      * rewrite last_last. rewrite Forall_forall. intros q Hq. specialize (Hlt q Hq). lia.
    + apply IH; [discriminate| | exact Hs' | exact Hps' |].
      * rewrite concat_app. simpl. rewrite app_nil_r.
        replace ((List.concat chains ++ cur) ++ [s1_id p; s2_id p])%list
          with (((List.concat chains ++ cur) ++ [s1_id p]) ++ [s2_id p])%list
          by (rewrite <- app_assoc; reflexivity).
        apply increasing_snoc; [apply increasing_snoc; [exact Hi|]|].
        -- intros _. rewrite last_app_nonempty by exact Hc. lia.
        -- intros _. rewrite last_last. lia.
      * simpl. rewrite Forall_forall. intros q Hq. specialize (Hlt q Hq). lia.
Qed.

Lemma build_merge_chains_increasing (ps : list frag_pair) :
  Forall (fun p => s2_id p = (s1_id p + 1)%Z) ps ->
  increasing (map s1_id ps) ->
  increasing (List.concat (build_merge_chains ps)).
Proof.
  destruct ps as [|p0 rest]; intros Hs Hps; [exact I|].
  inversion Hs as [|? ? Hp0 Hs']; subst.
  assert (Hlt : Forall (fun y => (s1_id p0 < y)%Z) (map s1_id rest))
    by exact (increasing_forall _ _ Hps).
  rewrite Forall_map, Forall_forall in Hlt.
  apply build_chains_from_increasing; [discriminate| |exact Hs'|exact (increasing_tail _ _ Hps)|].
  - simpl. rewrite Hp0. split; [lia|exact I].
  - simpl. rewrite Forall_forall. intros q Hq. specialize (Hlt q Hq). lia.
Qed.

Lemma build_merge_chains_runs_of (ps : list frag_pair) :
  Forall (fun p => s2_id p = (s1_id p + 1)%Z) ps ->
  Forall (fun ch => (2 <= List.length ch)%nat /\ consecutive_run ch) (build_merge_chains ps).
Proof.
  destruct ps as [|p0 rest]; intros Hs; [constructor|].
  inversion Hs as [|? ? Hp0 Hs']; subst.
  apply build_chains_from_runs; [exact Hs'|simpl; lia|simpl; rewrite Hp0; tauto|constructor].
Qed.

Lemma merge_chains_rows (cs : list (list Z)) (db db' : database) :
  Forall (fun c => (2 <= List.length c)%nat) cs ->
  increasing (List.concat cs) ->
  (forall x, In x (List.concat cs) -> exists r, In r (activity_sessions db) /\ id r = x) ->
  merge_chains db cs = Ok db' ->
  forall r', In r' (activity_sessions db') ->
    ~ In (id r') (chain_tails cs) /\
    exists r, In r (activity_sessions db) /\ row_origin (chain_heads cs) r r'.
Proof.
  revert db. induction cs as [|c cs IH]; intros db Hl Hi Hp Hm r' Hr'.
  - injection Hm as <-. split; [intros []|].
    exists r'. split; [exact Hr'|]. unfold row_origin. auto.
  - inversion Hl as [|? ? Hc Hl']; subst.
    cbn [merge_chains] in Hm.
    destruct (merge_chain db c) as [[db1 n]|e] eqn:M; [|discriminate].
    assert (Hne : c <> []) by (destruct c; simpl in Hc; [lia|discriminate]).
    destruct (merge_chain_rows db db1 c n Hc) as [M1 M2].
    { apply Hp. simpl. apply in_or_app. left. destruct c; [congruence|left; reflexivity]. }
    { apply Hp. simpl. apply in_or_app. left. apply last_In_nonempty. exact Hne. }
    { exact M. }
    simpl in Hi.
    destruct (IH db1 Hl' (increasing_app_r _ _ Hi)) with (r' := r') as [Ht [r1 [Hr1 Ho1]]].
    { intros x Hx. destruct (Hp x) as [r [Hr Hid]]; [simpl; apply in_or_app; right; exact Hx|].
      exists r. split; [|exact Hid]. apply M2; [exact Hr|].
      rewrite Hid. intros Hxc. pose proof (increasing_In_app _ _ _ _ Hi Hxc Hx). lia. }
    { exact Hm. }
    { exact Hr'. }
    destruct (M1 r1 Hr1) as [Ht1 [r [Hr Ho]]].
    destruct Ho1 as [I1 [S1 O1]]. destruct Ho as [I0 [S0 O0]].
    split.
    + unfold chain_tails. simpl. rewrite in_app_iff. rewrite <- I1. intros [H|H]; [exact (Ht1 H)|apply Ht; rewrite <- I1; exact H].
    + exists r. split; [exact Hr|]. unfold row_origin. split; [congruence|]. split; [congruence|].
      unfold chain_heads. simpl.
      destruct O1 as [E1|[H1 N1]].
      * subst r'. destruct O0 as [E0|[H0 N0]]; [left; exact E0|].
        right. split; [|exact N0]. destruct H0 as [H0|[]]. left. exact H0.
      * right. split; [|exact N1]. right. rewrite I0. exact H1.
Qed.

(* ------------------------------------------------------------------ *)
(** ** No pair survives a repair *)

Lemma increasing_ids_unique (rows : list session_row) (r r' : session_row) :
  increasing (map id rows) -> In r rows -> In r' rows -> id r = id r' -> r = r'.
Proof.
  induction rows as [|a rows IH]; intros Hi Hr Hr' E; [destruct Hr|].
  assert (Hlt : Forall (fun y => (id a < y)%Z) (map id rows))
    by exact (increasing_forall _ _ Hi).
  rewrite Forall_map, Forall_forall in Hlt.
  destruct Hr as [<-|Hr]; destruct Hr' as [<-|Hr']; auto.
  - specialize (Hlt r' Hr'). lia.
  - specialize (Hlt r Hr). lia.
  - exact (IH (increasing_tail _ _ Hi) Hr Hr' E).
Qed.

Lemma storage_get_session_unique (rows : list session_row) (r : session_row) :
  increasing (map id rows) -> In r rows -> storage_get_session rows (id r) = Some r.
Proof.
  intros Hi Hr.
  destruct (storage_get_session_present rows (id r)) as [r' G]; [eauto|].
  rewrite G. f_equal. apply storage_get_session_id in G as [E Hr'].
  exact (increasing_ids_unique rows r' r Hi Hr' Hr E).
Qed.

Lemma fragmented_pair_elim table thr s1 p :
  fragmented_pair table thr s1 = Some p ->
  exists s2 e1 e2,
    storage_get_session table (id s1 + 1) = Some s2 /\
    end_time s1 = Some e1 /\ end_time s2 = Some e2 /\
    (0 < start_time s2 - e1)%Z /\ (start_time s2 - e1 < thr * usec_per_sec)%Z.
Proof.
  unfold fragmented_pair.
  destruct (storage_get_session table (id s1 + 1)) as [s2|] eqn:G; [|discriminate].
  destruct (end_time s1) as [e1|]; [|discriminate].
  destruct (end_time s2) as [e2|] eqn:E2; [|discriminate].
  destruct (0 <? start_time s2 - e1)%Z eqn:L1; [|discriminate].
  destruct (start_time s2 - e1 <? thr * usec_per_sec)%Z eqn:L2; [|discriminate].
  intros _. apply Z.ltb_lt in L1, L2. exists s2, e1, e2. auto.
Qed.

Lemma fragmented_pair_intro table thr s1 s2 e1 e2 :
  storage_get_session table (id s1 + 1) = Some s2 ->
  end_time s1 = Some e1 -> end_time s2 = Some e2 ->
  (0 < start_time s2 - e1)%Z -> (start_time s2 - e1 < thr * usec_per_sec)%Z ->
  exists p, fragmented_pair table thr s1 = Some p /\ pair_ids p = (id s1, id s2).
Proof.
  intros G E1 E2 L1 L2. unfold fragmented_pair. rewrite G, E1, E2.
  apply Z.ltb_lt in L1, L2. rewrite L1, L2. simpl. eexists. split; reflexivity.
Qed.

Lemma collect_pairs_complete table rows thr s1 p :
  In s1 rows -> fragmented_pair table thr s1 = Some p -> In p (collect_pairs table rows thr).
Proof.
  induction rows as [|r rows IH]; intros Hin F; [destruct Hin|]. simpl.
  destruct Hin as [<-|Hin].
  - rewrite F. left. reflexivity.
  - destruct (fragmented_pair table thr r); [right|]; exact (IH Hin F).
Qed.

Lemma chain_links_in (c : list Z) (a b : Z) :
  In (a, b) (chain_links c) -> In a c /\ In b (tl c).
Proof.
  induction c as [|x c IH]; [intros []|].
  destruct c as [|y c]; [intros []|].
  rewrite chain_links_cons2. intros [E|H].
  - injection E as <- <-. split; left; reflexivity.
  - destruct (IH H) as [Ha Hb]. split; [right; exact Ha|]. simpl. right. exact Hb.
Qed.

Lemma chain_links_cover (c : list Z) (x : Z) :
  (2 <= List.length c)%nat -> In x c ->
  exists y, In (x, y) (chain_links c) \/ In (y, x) (chain_links c).
Proof.
  induction c as [|a c IH]; intros Hl Hx; [destruct Hx|].
  destruct c as [|b c]; [simpl in Hl; lia|].
  rewrite chain_links_cons2. destruct Hx as [<-|Hx].
  - exists b. left. left. reflexivity.
  - destruct c as [|b' c].
    + destruct Hx as [<-|[]]. exists a. right. left. reflexivity.
    + destruct (IH ltac:(simpl; lia) Hx) as [y [H|H]]; exists y; [left|right]; right; exact H.
Qed.

Lemma links_in_pairs (cs : list (list Z)) (ps : list frag_pair) (a b : Z) :
  List.concat (map chain_links cs) = map pair_ids ps ->
  In (a, b) (map pair_ids ps) -> In b (chain_tails cs).
Proof.
  intros E H. rewrite <- E in H. apply in_concat in H as [l [Hl H]].
  apply in_map_iff in Hl as [c [<- Hc]].
  unfold chain_tails. apply in_concat. exists (tl c). split; [apply in_map; exact Hc|].
  exact (proj2 (chain_links_in c a b H)).
Qed.

Lemma chain_heads_next (cs : list (list Z)) (u : Z) :
  Forall (fun ch => (2 <= List.length ch)%nat /\ consecutive_run ch) cs ->
  In u (chain_heads cs) ->
  In (u + 1)%Z (chain_tails cs) /\ exists c, In c cs /\ In (u, (u + 1)%Z) (chain_links c).
Proof.
  intros Hf Hu. unfold chain_heads in Hu. apply in_map_iff in Hu as [c [Hh Hc]].
  rewrite Forall_forall in Hf. destruct (Hf c Hc) as [Hl Hr].
  destruct c as [|x [|y c]]; simpl in Hl; try lia.
  simpl in Hh, Hr. subst x. destruct Hr as [-> _].
  split.
  - unfold chain_tails. apply in_concat. exists ((u + 1)%Z :: c). split; [|left; reflexivity].
    change ((u + 1)%Z :: c) with (tl (u :: (u + 1)%Z :: c)). apply in_map. exact Hc.
  - exists (u :: (u + 1)%Z :: c). split; [exact Hc|]. left. reflexivity.
Qed.

(** C7: for every session table in id order, if one repair run
    ([find_fragmented_pairs_with_threshold], [build_merge_chains], then
    [merge_chain] on every chain) succeeds with result [db'], then with the
    same [gap_threshold] the finder returns no pair on [db'], and a second
    run returns [db'] itself without merging anything. *)
Theorem repair_idempotent (db db' : database) (gap_threshold : Z) :
  increasing (map id (activity_sessions db)) ->
  repair db gap_threshold = Ok db' ->
  find_fragmented_pairs_with_threshold db' gap_threshold = [] /\
  repair db' gap_threshold = Ok db'.
Proof.
  intros Hinc Hrep.
  assert (Hnone : find_fragmented_pairs_with_threshold db' gap_threshold = []).
  { unfold repair in Hrep.
    destruct (find_fragmented_pairs_with_threshold db gap_threshold) as [|p0 rest] eqn:Hps.
    { injection Hrep as <-. exact Hps. }
    set (rows := activity_sessions db) in *.
    set (cs := build_merge_chains (p0 :: rest)) in *.
    assert (Hs : Forall (fun p => s2_id p = (s1_id p + 1)%Z) (p0 :: rest))
      by (rewrite <- Hps; apply collect_pairs_shape).
    assert (Hpi : increasing (map s1_id (p0 :: rest)))
      by (rewrite <- Hps; apply collect_pairs_increasing; exact Hinc).
    pose proof (build_merge_chains_runs_of _ Hs) as Hruns. fold cs in Hruns.
    pose proof (build_merge_chains_links (p0 :: rest)) as Hlinks. fold cs in Hlinks.
    pose proof (build_merge_chains_increasing _ Hs Hpi) as Hci. fold cs in Hci.
    (* a found pair comes from a row of [db] and its successor *)
    assert (Hfrom : forall p, In p (p0 :: rest) ->
              exists s1 s2, In s1 rows /\ In s2 rows /\
                fragmented_pair rows gap_threshold s1 = Some p /\
                id s1 = s1_id p /\ id s2 = s2_id p).
    { intros p Hp. rewrite <- Hps in Hp. apply collect_pairs_in in Hp as [s1 [Hs1 F]].
      destruct (fragmented_pair_ids _ _ _ _ F) as [I1 I2].
      destruct (fragmented_pair_elim _ _ _ _ F) as (s2 & e1 & e2 & G & _).
      apply storage_get_session_id in G as [Is2 Hs2].
      exists s1, s2. repeat split; auto; congruence. }
    assert (Hpres : forall x, In x (List.concat cs) ->
              exists r, In r (activity_sessions db) /\ id r = x).
    { intros x Hx. apply in_concat in Hx as [c [Hc Hx]].
      rewrite Forall_forall in Hruns. destruct (Hruns c Hc) as [Hl _].
      destruct (chain_links_cover c x Hl Hx) as [y Hxy].
      assert (Hin : forall a b, In (a, b) (chain_links c) -> In (a, b) (map pair_ids (p0 :: rest))).
      { intros a b H. rewrite <- Hlinks. apply in_concat. exists (chain_links c).
        split; [apply in_map; exact Hc|exact H]. }
      destruct Hxy as [H|H]; apply Hin in H; apply in_map_iff in H as [p [Ep Hp]];
        unfold pair_ids in Ep; injection Ep as Ea Eb;
        destruct (Hfrom p Hp) as (s1 & s2 & Hs1 & Hs2 & _ & I1 & I2).
      - exists s1. split; [exact Hs1|congruence].
      - exists s2. split; [exact Hs2|congruence]. }
    assert (Hlen : Forall (fun c => (2 <= List.length c)%nat) cs).
    { eapply Forall_impl; [|exact Hruns]. simpl. tauto. }
    pose proof (merge_chains_rows cs db db' Hlen Hci Hpres Hrep) as Hinv.
    destruct (find_fragmented_pairs_with_threshold db' gap_threshold) as [|q qs] eqn:Hq;
      [reflexivity|exfalso].
    assert (Hqin : In q (find_fragmented_pairs_with_threshold db' gap_threshold))
      by (rewrite Hq; left; reflexivity).
    apply collect_pairs_in in Hqin as [s1' [Hs1' F']].
    destruct (fragmented_pair_elim _ _ _ _ F') as (s2' & e1 & e2 & G' & E1 & E2 & L1 & L2).
    apply storage_get_session_id in G' as [Is2' Hs2'].
    destruct (Hinv s1' Hs1') as [Ht1 [r1 [Hr1 [I1 [S1 O1]]]]].
    destruct (Hinv s2' Hs2') as [Ht2 [r2 [Hr2 [I2 [S2 O2]]]]].
    destruct (in_dec Z.eq_dec (id s1') (chain_heads cs)) as [Hh|Hh].
    { apply Ht2. rewrite Is2'. exact (proj1 (chain_heads_next cs _ Hruns Hh)). }
    destruct O1 as [<-|[Hh1 _]]; [|apply Hh; rewrite <- I1; exact Hh1].
    (* the successor row is closed in [db] as well *)
    assert (Hc2 : exists e2', end_time r2 = Some e2').
    { destruct O2 as [<-|[Hh2 _]]; [eauto|].
      destruct (chain_heads_next cs _ Hruns Hh2) as [_ [c [Hc Hl]]].
      assert (Hl' : In (id r2, (id r2 + 1)%Z) (map pair_ids (p0 :: rest))).
      { rewrite <- Hlinks. apply in_concat. exists (chain_links c).
        split; [apply in_map; exact Hc|exact Hl]. }
      apply in_map_iff in Hl' as [p [Ep Hp]]. unfold pair_ids in Ep. injection Ep as Ea _.
      destruct (Hfrom p Hp) as (s1 & _ & Hs1 & _ & F & Is1 & _).
      destruct (fragmented_pair_elim _ _ _ _ F) as (_ & e & _ & _ & Ee & _).
      assert (E : s1 = r2) by (apply (increasing_ids_unique rows); auto; congruence).
      subst s1. eauto. }
    destruct Hc2 as [e2' Hc2].
    assert (G : storage_get_session rows (id s1' + 1) = Some r2).
    { rewrite <- Is2', <- I2. apply storage_get_session_unique; assumption. }
    rewrite <- S2 in L1, L2.
    destruct (fragmented_pair_intro rows gap_threshold s1' r2 e1 e2' G E1 Hc2 L1 L2)
      as [p [F Hp]].
    assert (Hpin : In (id s1', id r2) (map pair_ids (p0 :: rest))).
    { rewrite <- Hp. apply in_map. rewrite <- Hps.
      exact (collect_pairs_complete rows rows gap_threshold s1' p Hr1 F). }
    apply Ht2. rewrite <- I2. exact (links_in_pairs cs _ _ _ Hlinks Hpin). }
  split; [exact Hnone|]. unfold repair. rewrite Hnone. reflexivity.
Qed.

Lemma repair_idempotent_witness :
  increasing (map id (activity_sessions four_sessions)) /\
  List.length (activity_sessions four_sessions) = 4%nat /\
  exists db', repair four_sessions 7200 = Ok db' /\
              List.length (activity_sessions db') = 1%nat /\
              find_fragmented_pairs_with_threshold db' 7200 = [] /\
              repair db' 7200 = Ok db'.
Proof.
  assert (Hinc : increasing (map id (activity_sessions four_sessions)))
    by (simpl; repeat split; lia).
  split; [exact Hinc|]. split; [reflexivity|].
  destruct (repair four_sessions 7200) as [db'|e] eqn:R; [|vm_compute in R; discriminate].
  exists db'. split; [reflexivity|].
  split; [vm_compute in R; injection R as <-; reflexivity|].
  exact (repair_idempotent four_sessions db' 7200 Hinc R).
Defined.

(* ================================================================== *)
(** * Further properties of the code *)

(* ------------------------------------------------------------------ *)
(** ** [int(s, 16)] reads back [f"{v:016x}"] *)

Lemma parse_hex_aux_app (s t : string) (acc : N) :
  parse_hex_aux (s ++ t) acc =
  match parse_hex_aux s acc with Some a => parse_hex_aux t a | None => None end.
Proof.
  revert acc; induction s as [|c rest IH]; intros acc; simpl; [reflexivity|].
  destruct (hex_digit_value c); [apply IH|reflexivity].
Qed.

Lemma parse_hex_aux_zeros (k : nat) : parse_hex_aux (zeros k) 0 = Some 0%N.
Proof. induction k as [|k IH]; [reflexivity|exact IH]. Qed.

Lemma parse_hex_aux_hex_aux (fuel : nat) (n : N) (acc : string) :
  (n < 2 ^ N.of_nat fuel)%N -> parse_hex_aux (hex_aux fuel n acc) 0 = parse_hex_aux acc n.
Proof.
  revert n acc; induction fuel as [|f IH]; intros n acc Hn; simpl.
  - assert (n = 0%N) as -> by (simpl in Hn; lia). reflexivity.
  - destruct n as [|p]; [reflexivity|].
    rewrite IH.
    + simpl. rewrite hex_digit_value_hex_char by (apply N.mod_lt; discriminate).
      f_equal. pose proof (N.div_mod (N.pos p) 16 ltac:(discriminate)). lia.
    + rewrite Nat2N.inj_succ, N.pow_succ_r' in Hn.
      apply N.Div0.div_lt_upper_bound. lia.
Qed.

Lemma pos_lt_size_nat (p : positive) : (N.pos p < 2 ^ N.of_nat (Pos.size_nat p))%N.
Proof.
  induction p as [q IH|q IH|]; cbn [Pos.size_nat]; rewrite ?Nat2N.inj_succ, ?N.pow_succ_r';
    [| |simpl; lia].
  - change (N.pos q~1) with (2 * N.pos q + 1)%N. lia.
  - change (N.pos q~0) with (2 * N.pos q)%N. lia.
Qed.

Lemma format_016x_nonempty (n : N) : format_016x n <> "".
Proof.
  intros H. pose proof (length_format_016x n) as L. rewrite H in L. cbn [String.length] in L. lia.
Qed.

(* ------------------------------------------------------------------ *)
(** ** Bit counts *)

Lemma popcount_double (n : N) : popcount (N.double n) = popcount n.
Proof. destruct n; reflexivity. Qed.

Lemma popcount_succ_double (n : N) : popcount (N.succ_double n) = S (popcount n).
Proof. destruct n; reflexivity. Qed.

Lemma pos_popcount_lxor_le (p q : positive) :
  (popcount (Pos.lxor p q) <= pos_popcount p + pos_popcount q)%nat.
Proof.
  revert q; induction p as [p IH|p IH|]; intros q; destruct q as [q|q|]; cbn [Pos.lxor pos_popcount];
    rewrite ?popcount_double, ?popcount_succ_double; cbn [popcount pos_popcount];
    try (specialize (IH q)); lia.
Qed.

Lemma popcount_lxor_le (a b : N) : (popcount (N.lxor a b) <= popcount a + popcount b)%nat.
Proof.
  destruct a as [|p], b as [|q]; simpl; try lia. apply pos_popcount_lxor_le.
Qed.

Lemma pos_popcount_le (p : positive) (k : nat) :
  (N.pos p < 2 ^ N.of_nat k)%N -> (pos_popcount p <= k)%nat.
Proof.
  revert k; induction p as [q IH|q IH|]; intros k Hk; destruct k as [|k];
    cbn [pos_popcount]; try (simpl in Hk; lia);
    rewrite Nat2N.inj_succ, N.pow_succ_r' in Hk.
  - change (N.pos q~1) with (2 * N.pos q + 1)%N in Hk.
    assert (pos_popcount q <= k)%nat by (apply IH; lia). lia.
  - change (N.pos q~0) with (2 * N.pos q)%N in Hk.
    assert (pos_popcount q <= k)%nat by (apply IH; lia). lia.
Qed.

Lemma popcount_le (n : N) (k : nat) : (n < 2 ^ N.of_nat k)%N -> (popcount n <= k)%nat.
Proof. destruct n as [|p]; simpl; [lia|apply pos_popcount_le]. Qed.

Lemma lxor_lt_pow2 (a b k : N) :
  (a < 2 ^ k)%N -> (b < 2 ^ k)%N -> (N.lxor a b < 2 ^ k)%N.
Proof.
  intros Ha Hb.
  destruct (N.eq_dec (N.lxor a b) 0) as [->|H0]; [apply N.neq_0_lt_0, N.pow_nonzero; discriminate|].
  apply N.log2_lt_pow2; [lia|].
  eapply N.le_lt_trans; [apply N.log2_lxor|].
  destruct (N.eq_dec a 0) as [->|Ha0]; destruct (N.eq_dec b 0) as [->|Hb0];
    [rewrite N.lxor_0_l in H0; congruence| | |].
  - apply N.log2_lt_pow2 in Hb; [|lia]. simpl. lia.
  - apply N.log2_lt_pow2 in Ha; [|lia]. change (N.log2 0) with 0%N. lia.
  - apply N.log2_lt_pow2 in Ha; [|lia]. apply N.log2_lt_pow2 in Hb; [|lia]. lia.
Qed.

Lemma compare_hashes_parsed (h1 h2 : string) (n1 n2 : N) :
  String.length h1 = String.length h2 -> parse_hex h1 = Some n1 -> parse_hex h2 = Some n2 ->
  compare_hashes h1 h2 = Ok (popcount (N.lxor n1 n2)).
Proof.
  intros L P1 P2. unfold compare_hashes. rewrite L, Nat.eqb_refl, P1, P2. reflexivity.
Qed.

Lemma format_016x_parse (v : N) : parse_hex (format_016x v) = Some v.
Proof.
  unfold parse_hex. destruct (format_016x v) eqn:E; [exfalso; exact (format_016x_nonempty v E)|].
  rewrite <- E. unfold format_016x. rewrite parse_hex_aux_app, parse_hex_aux_zeros.
  unfold hex_string. destruct v as [|p]; [reflexivity|].
  cbn [N.size_nat]. rewrite parse_hex_aux_hex_aux by apply pos_lt_size_nat. reflexivity.
Qed.

Lemma format_016x_length_64 (v : N) :
  (v < 2 ^ 64)%N -> String.length (format_016x v) = 16%nat.
Proof.
  intros Hv. rewrite length_format_016x.
  assert (Hle : (String.length (hex_string v) <= 16)%nat)
    by (apply length_hex_string; [lia|exact Hv]).
  lia.
Qed.

Lemma parse_hex_some_nonempty (s : string) (n : N) : parse_hex s = Some n -> s <> "".
Proof. destruct s; [discriminate|intros _; discriminate]. Qed.

(** Extra (capture.py, [_generate_dhash] and [compare_hashes]): the hex
    text [f"{v:016x}"] of a dhash value reads back as [v] with
    [int(s, 16)], for every non-negative [v]. *)
Theorem parse_hex_format_016x (v : N) : parse_hex (format_016x v) = Some v.
Proof. apply format_016x_parse. Qed.

(** Extra (capture.py, [compare_hashes]): on non-empty hex strings of one
    length, [compare_hashes] does not raise and is a distance: zero from a
    hash to itself, symmetric, and within the triangle inequality. *)
Theorem compare_hashes_metric (h1 h2 h3 : string) :
  all_hex h1 = true -> all_hex h2 = true -> all_hex h3 = true -> h1 <> "" ->
  String.length h1 = String.length h2 -> String.length h2 = String.length h3 ->
  compare_hashes h1 h1 = Ok 0%nat /\
  compare_hashes h1 h2 = compare_hashes h2 h1 /\
  exists d12 d23 d13,
    compare_hashes h1 h2 = Ok d12 /\ compare_hashes h2 h3 = Ok d23 /\
    compare_hashes h1 h3 = Ok d13 /\ (d13 <= d12 + d23)%nat.
Proof.
  intros X1 X2 X3 N1 L12 L23.
  assert (N2 : h2 <> "") by (intros ->; destruct h1; [congruence|discriminate]).
  assert (N3 : h3 <> "") by (intros ->; destruct h2; [congruence|discriminate]).
  destruct (parse_hex_all_hex h1 N1 X1) as [n1 P1].
  destruct (parse_hex_all_hex h2 N2 X2) as [n2 P2].
  destruct (parse_hex_all_hex h3 N3 X3) as [n3 P3].
  split; [rewrite (compare_hashes_parsed h1 h1 n1 n1 eq_refl P1 P1), N.lxor_nilpotent; reflexivity|].
  split.
  - rewrite (compare_hashes_parsed h1 h2 n1 n2 L12 P1 P2),
            (compare_hashes_parsed h2 h1 n2 n1 (eq_sym L12) P2 P1), N.lxor_comm.
    reflexivity.
  - do 3 eexists. split; [exact (compare_hashes_parsed h1 h2 n1 n2 L12 P1 P2)|].
    split; [exact (compare_hashes_parsed h2 h3 n2 n3 L23 P2 P3)|].
    split; [exact (compare_hashes_parsed h1 h3 n1 n3 (eq_trans L12 L23) P1 P3)|].
    replace (N.lxor n1 n3) with (N.lxor (N.lxor n1 n2) (N.lxor n2 n3)).
    + apply popcount_lxor_le.
    + rewrite N.lxor_assoc, <- (N.lxor_assoc n2 n2 n3), N.lxor_nilpotent, N.lxor_0_l.
      reflexivity.
Qed.

(** Extra (capture.py, [_generate_dhash] then [compare_hashes]): two grids
    of the size PIL produces for a [hash_size] of at most 8 get dhashes that
    [compare_hashes] compares without raising, at a distance of at most
    [hash_size * hash_size] bits. *)
Theorem compare_dhashes_bounded (pa pb : list Z) (hash_size : nat) :
  (hash_size <= 8)%nat ->
  List.length pa = ((hash_size + 1) * hash_size)%nat ->
  List.length pb = ((hash_size + 1) * hash_size)%nat ->
  exists ha hb d,
    generate_dhash pa hash_size = Ok ha /\ generate_dhash pb hash_size = Ok hb /\
    compare_hashes ha hb = Ok d /\ (d <= hash_size * hash_size)%nat.
Proof.
  intros Hn La Lb.
  destruct (generate_dhash_value pa hash_size La) as [va [Ga Va]].
  destruct (generate_dhash_value pb hash_size Lb) as [vb [Gb Vb]].
  assert (Hpow : (2 ^ N.of_nat (hash_size * hash_size) <= 2 ^ 64)%N)
    by (apply N.pow_le_mono_r; [discriminate|nia]).
  exists (format_016x va), (format_016x vb), (popcount (N.lxor va vb)).
  split; [exact Ga|]. split; [exact Gb|]. split.
  - apply compare_hashes_parsed; [|apply format_016x_parse|apply format_016x_parse].
    rewrite !format_016x_length_64 by lia. reflexivity.
  - apply popcount_le, lxor_lt_pow2; assumption.
Qed.

Lemma compare_dhashes_bounded_witness :
  (3 <= 8)%nat /\ List.length (falling_rows 3) = ((3 + 1) * 3)%nat /\
  exists ha hb d,
    generate_dhash (falling_rows 3) 3 = Ok ha /\ generate_dhash (repeat 7%Z 12) 3 = Ok hb /\
    compare_hashes ha hb = Ok d /\ (d <= 3 * 3)%nat.
Proof.
  split; [lia|]. split; [reflexivity|].
  apply compare_dhashes_bounded; [lia|reflexivity|reflexivity].
Defined.

(** Extra (daemon.py [_should_skip_screenshot], capture.py [are_similar]):
    a screenshot the daemon skips as a near-duplicate of the last one is
    also similar to it for [are_similar] at any threshold of 2 or more. *)
Theorem should_skip_are_similar (last cur : string) (threshold : Z) :
  should_skip (Some last) (Some cur) = Ok true -> (2 <= threshold)%Z ->
  are_similar cur last threshold = Ok true.
Proof.
  intros H Ht. unfold should_skip in H.
  destruct (negb (truthy (Some last)) || negb (truthy (Some cur))); [discriminate|].
  unfold hamming_distance in H. unfold are_similar, compare_hashes.
  destruct (negb (String.length cur =? String.length last)%nat); [discriminate|].
  destruct (parse_hex cur), (parse_hex last); try discriminate.
  injection H as H. apply Nat.ltb_lt in H. f_equal. apply Z.leb_le. lia.
Qed.

Lemma should_skip_are_similar_witness :
  should_skip (Some "00000000000000ff") (Some "00000000000000fe") = Ok true /\
  (2 <= 10)%Z /\ are_similar "00000000000000fe" "00000000000000ff" 10 = Ok true.
Proof.
  split; [vm_compute; reflexivity|]. split; [lia|].
  apply should_skip_are_similar; [vm_compute; reflexivity|lia].
Defined.

Lemma compare_hashes_metric_witness :
  all_hex "0f" = true /\ all_hex "f0" = true /\ all_hex "ff" = true /\ "0f" <> "" /\
  compare_hashes "0f" "0f" = Ok 0%nat /\ compare_hashes "0f" "f0" = compare_hashes "f0" "0f".
Proof.
  destruct (compare_hashes_metric "0f" "f0" "ff" eq_refl eq_refl eq_refl ltac:(discriminate)
              eq_refl eq_refl) as [A [B _]].
  repeat split; try reflexivity; try discriminate; assumption.
Defined.

Lemma differences_some_in_range (pixels : list Z) (idx : list nat) (bits : list bool) :
  differences pixels idx = Some bits -> forall i, In i idx -> S i < List.length pixels.
Proof.
  revert bits; induction idx as [|j rest IH]; intros bits H i Hi; [destruct Hi|].
  cbn [differences] in H.
  destruct (nth_error pixels j) as [a|], (nth_error pixels (S j)) as [b|] eqn:E2;
    try discriminate.
  destruct (differences pixels rest) as [bs|] eqn:E; [|discriminate].
  destruct Hi as [<- | Hi].
  - apply nth_error_Some; rewrite E2; discriminate.
  - exact (IH bs eq_refl i Hi).
Qed.

Lemma differences_nth (pixels : list Z) (idx : list nat) (bits : list bool) (j : nat) :
  differences pixels idx = Some bits -> j < List.length idx ->
  nth j bits false =
  (nth (S (nth j idx 0%nat)) pixels 0 <? nth (nth j idx 0%nat) pixels 0)%Z.
Proof.
  revert bits j; induction idx as [|i rest IH]; intros bits j H Hj; [simpl in Hj; lia|].
  cbn [differences] in H.
  destruct (nth_error pixels i) as [a|] eqn:E1, (nth_error pixels (S i)) as [b|] eqn:E2;
    try discriminate.
  destruct (differences pixels rest) as [bs|] eqn:E; [|discriminate].
  injection H as <-. destruct j as [|j].
  - cbn [nth]. rewrite (nth_error_nth _ _ _ E1), (nth_error_nth _ _ _ E2). reflexivity.
  - cbn [nth]. apply IH; [reflexivity|simpl in Hj; lia].
Qed.

Lemma nth_flat_map_const {A B : Type} (f : A -> list B) (m : nat) (l : list A)
      (r c : nat) (d : B) (d0 : A) :
  (forall x, List.length (f x) = m) -> r < List.length l -> c < m ->
  nth (r * m + c) (flat_map f l) d = nth c (f (nth r l d0)) d.
Proof.
  intros Hm; revert r; induction l as [|a l IH]; intros r Hr Hc; [simpl in Hr; lia|].
  cbn [flat_map]. destruct r as [|r].
  - rewrite app_nth1 by (rewrite Hm; lia). reflexivity.
  - rewrite app_nth2 by (rewrite Hm; lia). rewrite Hm.
    replace (S r * m + c - m) with (r * m + c) by lia.
    apply IH; [simpl in Hr; lia|exact Hc].
Qed.

Lemma nth_dhash_indices (hash_size row col : nat) :
  row < hash_size -> col < hash_size ->
  nth (row * hash_size + col) (dhash_indices hash_size) 0%nat = row * (hash_size + 1) + col.
Proof.
  intros Hr Hc. unfold dhash_indices.
  rewrite (nth_flat_map_const _ hash_size _ _ _ _ 0%nat);
    [| intros x; rewrite length_map, length_seq; reflexivity
     | rewrite length_seq; exact Hr | exact Hc].
  rewrite seq_nth by exact Hr.
  rewrite nth_indep with (d' := (0 + row) * (hash_size + 1) + 0)
    by (rewrite length_map, length_seq; exact Hc).
  rewrite map_nth, seq_nth by exact Hc. reflexivity.
Qed.

Lemma or_bits_testbit (bits : list bool) (i : nat) (acc : N) (k : nat) :
  N.testbit (or_bits bits (N.of_nat i) acc) (N.of_nat k) =
  N.testbit acc (N.of_nat k) || ((i <=? k)%nat && nth (k - i) bits false).
Proof.
  revert i acc; induction bits as [|b rest IH]; intros i acc; cbn [or_bits].
  - destruct (i <=? k)%nat, (k - i)%nat; rewrite ?orb_false_r; reflexivity.
  - replace (N.of_nat i + 1)%N with (N.of_nat (S i)) by lia. rewrite IH.
    assert (Hacc : N.testbit (if b then N.lor acc (N.shiftl 1 (N.of_nat i)) else acc) (N.of_nat k)
                   = N.testbit acc (N.of_nat k) || (b && (i =? k)%nat)).
    { destruct b; cbn [andb]; [|rewrite orb_false_r; reflexivity].
      rewrite N.lor_spec, N.shiftl_1_l, N.pow2_bits_eqb. f_equal.
      destruct (Nat.eqb_spec i k) as [->|Hne]; [apply N.eqb_refl|].
      apply N.eqb_neq. lia. }
    rewrite Hacc. destruct (Nat.lt_total i k) as [Hlt|[<-|Hgt]].
    + replace (i =? k)%nat with false by (symmetry; apply Nat.eqb_neq; lia).
      replace (S i <=? k)%nat with true by (symmetry; apply Nat.leb_le; lia).
      replace (i <=? k)%nat with true by (symmetry; apply Nat.leb_le; lia).
      replace (k - i)%nat with (S (k - S i)) by lia.
      rewrite andb_false_r, orb_false_r. reflexivity.
    + rewrite Nat.eqb_refl, Nat.leb_refl, Nat.sub_diag.
      replace (S i <=? i)%nat with false by (symmetry; apply Nat.leb_gt; lia).
      rewrite andb_true_r. cbn [andb nth]. rewrite orb_false_r. reflexivity.
    + replace (i =? k)%nat with false by (symmetry; apply Nat.eqb_neq; lia).
      replace (S i <=? k)%nat with false by (symmetry; apply Nat.leb_gt; lia).
      replace (i <=? k)%nat with false by (symmetry; apply Nat.leb_gt; lia).
      rewrite andb_false_r; cbn [andb]; rewrite !orb_false_r; reflexivity.
Qed.

(** Extra (capture.py, [_generate_dhash]): for a [hash_size] of at least 1,
    [_generate_dhash] raises [IndexError] exactly when the grid has fewer
    than [(hash_size + 1) * hash_size] pixels; otherwise it returns a hash. *)
Theorem generate_dhash_index_error (pixels : list Z) (hash_size : nat) :
  (1 <= hash_size)%nat ->
  (generate_dhash pixels hash_size = Raise (mk_exn "IndexError" "list index out of range")
   <-> (List.length pixels < (hash_size + 1) * hash_size)%nat) /\
  ((hash_size + 1) * hash_size <= List.length pixels ->
   exists s, generate_dhash pixels hash_size = Ok s)%nat.
Proof.
  intros Hn.
  assert (Hok : ((hash_size + 1) * hash_size <= List.length pixels)%nat ->
                exists bits, differences pixels (dhash_indices hash_size) = Some bits).
  { intros Hl. apply differences_in_range. intros i Hi.
    apply in_dhash_indices in Hi as [row [col [Hr [Hc ->]]]]. nia. }
  split.
  - unfold generate_dhash. split.
    + intros H. destruct (Nat.lt_ge_cases (List.length pixels) ((hash_size + 1) * hash_size))
        as [Hlt|Hge]; [exact Hlt|].
      destruct (Hok Hge) as [bits Hb]. rewrite Hb in H. discriminate.
    + intros Hlt. destruct (differences pixels (dhash_indices hash_size)) as [bits|] eqn:Hb;
        [|reflexivity].
      exfalso.
      assert (Hin : In ((hash_size - 1) * (hash_size + 1) + (hash_size - 1))
                       (dhash_indices hash_size)).
      { unfold dhash_indices. apply in_flat_map. exists (hash_size - 1).
        split; [apply in_seq; lia|]. apply in_map_iff. exists (hash_size - 1).
        split; [reflexivity|apply in_seq; lia]. }
      pose proof (differences_some_in_range _ _ _ Hb _ Hin). nia.
  - intros Hge. destruct (Hok Hge) as [bits Hb].
    exists (format_016x (or_bits bits 0 0)). unfold generate_dhash. rewrite Hb. reflexivity.
Qed.

Lemma generate_dhash_index_error_witness :
  (1 <= 3)%nat /\
  generate_dhash (repeat 0%Z 11) 3 = Raise (mk_exn "IndexError" "list index out of range").
Proof.
  split; [lia|].
  apply (proj1 (generate_dhash_index_error (repeat 0%Z 11) 3 ltac:(lia))).
  simpl; lia.
Defined.

(** Extra (capture.py, [_generate_dhash]): the hash returned reads back as
    a number whose bit [row * hash_size + col] is set exactly when the pixel
    at [(row, col)] is brighter than its right neighbour
    [pixel_left > pixel_right], and which has no bit at or above
    [hash_size * hash_size]. *)
Theorem generate_dhash_bits (pixels : list Z) (hash_size : nat) (s : string) :
  generate_dhash pixels hash_size = Ok s ->
  exists v, parse_hex s = Some v /\
    (forall row col, (row < hash_size)%nat -> (col < hash_size)%nat ->
       N.testbit v (N.of_nat (row * hash_size + col)) =
       (nth (row * (hash_size + 1) + col + 1) pixels 0 <?
        nth (row * (hash_size + 1) + col) pixels 0)%Z) /\
    (forall k, (hash_size * hash_size <= k)%nat -> N.testbit v (N.of_nat k) = false).
Proof.
  unfold generate_dhash; intros H.
  destruct (differences pixels (dhash_indices hash_size)) as [bits|] eqn:Hb; [|discriminate].
  injection H as <-. exists (or_bits bits 0 0). split; [apply format_016x_parse|].
  pose proof (differences_length _ _ _ Hb) as Hlen. rewrite length_dhash_indices in Hlen.
  split.
  - intros row col Hr Hc.
    pose proof (or_bits_testbit bits 0 0 (row * hash_size + col)) as T.
    change (N.of_nat 0) with 0%N in T.
    rewrite T, N.bits_0, Nat.sub_0_r.
    cbn [orb andb Nat.leb].
    rewrite (differences_nth _ _ _ _ Hb) by (rewrite length_dhash_indices; nia).
    rewrite nth_dhash_indices by assumption.
    rewrite <- Nat.add_1_r. reflexivity.
  - intros k Hk.
    pose proof (or_bits_testbit bits 0 0 k) as T.
    change (N.of_nat 0) with 0%N in T.
    rewrite T, N.bits_0, Nat.sub_0_r, nth_overflow by lia.
    destruct (0 <=? k)%nat; reflexivity.
Qed.

Lemma generate_dhash_bits_witness :
  generate_dhash (falling_rows 3) 3 = Ok "00000000000001ff" /\
  exists v, parse_hex "00000000000001ff" = Some v /\
    N.testbit v (N.of_nat (1 * 3 + 2)) =
    (nth (1 * (3 + 1) + 2 + 1) (falling_rows 3) 0 <? nth (1 * (3 + 1) + 2) (falling_rows 3) 0)%Z.
Proof.
  split; [vm_compute; reflexivity|].
  destruct (generate_dhash_bits (falling_rows 3) 3 "00000000000001ff" ltac:(vm_compute; reflexivity))
    as [v [Hv [Hbits _]]].
  exists v. split; [exact Hv|]. apply Hbits; lia.
Defined.

Lemma last_cons_default {A : Type} (x : A) (l : list A) (d : A) :
  last (x :: l) d = last l x.
Proof.
  revert x d; induction l as [|y l IH]; intros x d; [reflexivity|].
  change (last (y :: l) d = last (y :: l) x). rewrite (IH y d), (IH y x). reflexivity.
Qed.

Lemma daemon_tick_cases infer (st : daemon_state) (ev : capture_event) :
  daemon_tick infer st ev = st \/
  exists x, should_skip (last_dhash st) (Some (shot_dhash x)) = Ok false /\
    shot_filepath x <> "" /\
    shot_id x = (Z.of_nat (List.length (screenshots st)) + 1)%Z /\
    daemon_tick infer st ev =
      mk_daemon (running st) (Some (shot_dhash x)) (screenshots st ++ [x])%list (sessions st).
Proof.
  unfold daemon_tick. destruct (capture ev) as [fp h|e]; [|left; reflexivity].
  destruct (String.eqb_spec fp "") as [_|Hfp]; [left; reflexivity|].
  destruct (should_skip (last_dhash st) (Some h)) as [[|]|e] eqn:Hs;
    [left; reflexivity| |left; reflexivity].
  right. eexists (mk_shot _ (ts ev) fp h (ev_window_title ev) _).
  cbn [shot_dhash shot_filepath shot_id]. split; [exact Hs|].
  split; [exact Hfp|]. split; reflexivity.
Qed.

(** Extra (daemon.py, [ActivityDaemon.run] with [_should_skip_screenshot]):
    whatever the captures and signals, the loop only appends to the
    screenshots table: the rows it adds have non-empty file paths and the
    ids [n + 1, n + 2, ...], each added dhash was not skipped against the
    dhash saved just before it (starting from [last_dhash]), and
    [last_dhash] ends as the dhash of the last row added. *)
Theorem daemon_run_appends infer (st : daemon_state) (inputs : list loop_input) :
  exists new,
    screenshots (daemon_run infer st inputs) = (screenshots st ++ new)%list /\
    Forall (fun x => shot_filepath x <> "") new /\
    accepted_chain (last_dhash st) (map shot_dhash new) /\
    last_dhash (daemon_run infer st inputs) =
      last (map (fun x => Some (shot_dhash x)) new) (last_dhash st).
Proof.
  revert st; induction inputs as [|[ev|] rest IH]; intros st; cbn [daemon_run].
  - exists []. rewrite app_nil_r. split; [reflexivity|]. split; [constructor|].
    split; [exact I|reflexivity].
  - destruct (running st) eqn:Hr; cycle 1.
    { exists []. rewrite app_nil_r. split; [reflexivity|]. split; [constructor|].
      split; [exact I|reflexivity]. }
    destruct (daemon_tick_cases infer st ev) as [E|[x [Hs [Hf [_ E]]]]]; rewrite E.
    + exact (IH st).
    + destruct (IH (mk_daemon (running st) (Some (shot_dhash x)) (screenshots st ++ [x])%list
                               (sessions st))) as [new [S1 [F1 [A1 L1]]]].
      cbn [screenshots last_dhash] in S1, A1, L1.
      exists (x :: new). split; [rewrite S1, <- app_assoc; reflexivity|].
      split; [constructor; assumption|].
      split; [split; assumption|].
      rewrite L1. cbn [map]. rewrite last_cons_default. reflexivity.
  - exact (IH (mk_daemon false (last_dhash st) (screenshots st) (sessions st))).
Qed.

Lemma string_app_assoc (s t u : string) : ((s ++ t) ++ u)%string = (s ++ (t ++ u))%string.
Proof. induction s as [|c s IH]; cbn; [reflexivity|rewrite IH; reflexivity]. Qed.

Lemma string_app_nil_r (s : string) : (s ++ "")%string = s.
Proof. induction s as [|c s IH]; cbn; [reflexivity|rewrite IH; reflexivity]. Qed.

Lemma rstrip_app (s t : string) :
  rstrip (s ++ t) = if String.eqb (rstrip t) "" then rstrip s else (s ++ rstrip t)%string.
Proof.
  induction s as [|c s IH]; cbn [String.append rstrip].
  - destruct (String.eqb_spec (rstrip t) "") as [->|_]; reflexivity.
  - rewrite IH. destruct (String.eqb_spec (rstrip t) "") as [E|E]; [reflexivity|].
    destruct (s ++ rstrip t)%string eqn:Es; [destruct s; cbn in Es; congruence|].
    rewrite andb_false_r. reflexivity.
Qed.

Lemma rstrip_quoted (s : string) : rstrip (quoted s) = quoted s.
Proof.
  unfold quoted. change (String dquote (s ++ String dquote ""))
    with (String dquote s ++ String dquote "")%string.
  rewrite rstrip_app. reflexivity.
Qed.

Lemma findall_quoted_inside (s rest acc : string) :
  no_dquote s = true ->
  findall_quoted (s ++ rest) (Some acc) = findall_quoted rest (Some (acc ++ s)%string).
Proof.
  revert acc; induction s as [|c s IH]; intros acc H.
  - rewrite string_app_nil_r. reflexivity.
  - unfold no_dquote in H; cbn [list_ascii_of_string forallb] in H. apply andb_prop in H as [Hc H].
    cbn [String.append findall_quoted]. apply negb_true_iff in Hc. rewrite Hc.
    rewrite IH by exact H. rewrite string_app_assoc. reflexivity.
Qed.

Lemma findall_quoted_quoted (s rest : string) :
  no_dquote s = true ->
  findall_quoted (quoted s ++ rest) None = s :: findall_quoted rest None.
Proof.
  intros H. unfold quoted. cbn [String.append findall_quoted].
  replace (Ascii.eqb dquote dquote) with true by (symmetry; apply Ascii.eqb_refl).
  rewrite string_app_assoc, findall_quoted_inside by exact H. cbn.
  replace (Ascii.eqb dquote dquote) with true by (symmetry; apply Ascii.eqb_refl).
  reflexivity.
Qed.

Lemma rstrip_app_quoted (s c : string) : rstrip (s ++ quoted c) = (s ++ quoted c)%string.
Proof. rewrite rstrip_app, rstrip_quoted. reflexivity. Qed.

Lemma rstrip_app_blank (s t : string) : rstrip t = "" -> rstrip (s ++ t) = rstrip s.
Proof. intros H. rewrite rstrip_app, H. reflexivity. Qed.

Lemma after_equals_wm_class (s : string) :
  after_equals ("WM_CLASS(STRING) = " ++ s) = Some (" " ++ s)%string.
Proof. reflexivity. Qed.

Lemma lstrip_space_quoted (s t : string) :
  lstrip (" " ++ (quoted s ++ t)) = (quoted s ++ t)%string.
Proof. reflexivity. Qed.

Lemma lstrip_wm_class (s : string) :
  lstrip ("WM_CLASS(STRING) = " ++ s) = ("WM_CLASS(STRING) = " ++ s)%string.
Proof. reflexivity. Qed.

(** Extra (daemon.py, [_get_active_window_info]): for [xprop] output of
    the form [WM_CLASS(STRING) = ] then the instance and the class, each in
    double quotes and separated by a comma and a space, then whitespace,
    [app_name] is the class; with a single quoted value it is that value
    (names without double quotes). *)
Theorem wm_class_app_name_xprop (inst cls trail : string) :
  no_dquote inst = true -> no_dquote cls = true -> rstrip trail = "" ->
  wm_class_app_name 0 ("WM_CLASS(STRING) = " ++ quoted inst ++ ", " ++ quoted cls ++ trail)
    = Some cls /\
  wm_class_app_name 0 ("WM_CLASS(STRING) = " ++ quoted inst ++ trail) = Some inst.
Proof.
  intros Hi Hc Ht. unfold wm_class_app_name, strip. cbn [Z.eqb].
  rewrite !lstrip_wm_class. split.
  - replace ("WM_CLASS(STRING) = " ++ quoted inst ++ ", " ++ quoted cls ++ trail)%string
      with ((("WM_CLASS(STRING) = " ++ quoted inst ++ ", ") ++ quoted cls) ++ trail)%string
      by (rewrite !string_app_assoc; reflexivity).
    rewrite rstrip_app_blank by exact Ht. rewrite rstrip_app_quoted, !string_app_assoc.
    rewrite after_equals_wm_class, lstrip_space_quoted.
    rewrite <- (string_app_assoc (quoted inst)), rstrip_app_quoted, string_app_assoc.
    rewrite findall_quoted_quoted by exact Hi. cbn [String.append findall_quoted].
    replace (Ascii.eqb "," dquote) with false by reflexivity.
    replace (Ascii.eqb " " dquote) with false by reflexivity.
    rewrite <- (string_app_nil_r (quoted cls)), findall_quoted_quoted by exact Hc.
    reflexivity.
  - rewrite <- string_app_assoc, rstrip_app_blank by exact Ht.
    rewrite rstrip_app_quoted, after_equals_wm_class.
    rewrite <- (string_app_nil_r (quoted inst)), lstrip_space_quoted, string_app_nil_r.
    rewrite rstrip_quoted, <- (string_app_nil_r (quoted inst)), findall_quoted_quoted by exact Hi.
    reflexivity.
Qed.

Lemma wm_class_app_name_xprop_witness :
  no_dquote "tilix" = true /\ no_dquote "Tilix" = true /\
  rstrip (String (ascii_of_nat 10) "") = "" /\
  wm_class_app_name 0 ("WM_CLASS(STRING) = " ++ quoted "tilix" ++ ", " ++ quoted "Tilix"
                        ++ String (ascii_of_nat 10) "") = Some "Tilix".
Proof.
  split; [reflexivity|]. split; [reflexivity|]. split; [reflexivity|].
  exact (proj1 (wm_class_app_name_xprop "tilix" "Tilix" (String (ascii_of_nat 10) "")
                  eq_refl eq_refl eq_refl)).
Defined.

Lemma existsb_string_eqb_In (t : string) (l : list string) :
  existsb (String.eqb t) l = true <-> In t l.
Proof.
  rewrite existsb_exists. split.
  - intros [x [Hx E]]. apply String.eqb_eq in E. subst. exact Hx.
  - intros H. exists t. split; [exact H|apply String.eqb_refl].
Qed.

Lemma track_window_title_cases (m : session_manager) (sid : Z) (t : string) :
  (track_window_title m sid t = (m, false) /\ (t = "" \/ In t (session_window_titles m))) \/
  (track_window_title m sid t =
     (mk_manager (storage m) (min_session_minutes m) (current_session_id m)
                 (t :: session_window_titles m), true) /\
   t <> "" /\ ~ In t (session_window_titles m)).
Proof.
  unfold track_window_title.
  destruct (String.eqb_spec t "") as [E|E]; [left; split; [reflexivity|left; exact E]|].
  destruct (existsb (String.eqb t) (session_window_titles m)) eqn:Ex.
  - left. split; [reflexivity|right; apply existsb_string_eqb_In; exact Ex].
  - right. split; [reflexivity|]. split; [exact E|].
    intros Hin. apply existsb_string_eqb_In in Hin. congruence.
Qed.

Lemma track_window_titles_spec (m : session_manager) (sid : Z) (titles : list string) :
  let r := track_window_titles m sid titles in
  storage (fst r) = storage m /\ current_session_id (fst r) = current_session_id m /\
  List.length (snd r) = List.length titles /\
  (forall i t, nth_error titles i = Some t ->
     (nth_error (snd r) i = Some true <->
      t <> "" /\ ~ In t (session_window_titles m) /\ ~ In t (firstn i titles))) /\
  (NoDup (session_window_titles m) -> NoDup (session_window_titles (fst r))) /\
  (forall t, In t (session_window_titles (fst r)) <->
     In t (session_window_titles m) \/ (t <> "" /\ In t titles)) /\
  List.length (session_window_titles (fst r)) =
    (List.length (session_window_titles m) + count_occ bool_dec (snd r) true)%nat.
Proof.
  revert m; induction titles as [|t rest IH]; intros m; cbn [track_window_titles].
  - cbn [fst snd]. split; [reflexivity|]. split; [reflexivity|]. split; [reflexivity|].
    split; [intros i t H; destruct i; discriminate|]. split; [tauto|].
    split; [intros t; split; [tauto|intros [H|[_ []]]; exact H]|].
    cbn. lia.
  - destruct (track_window_title_cases m sid t) as [[E Ht]|[E [Hne Hnin]]]; rewrite E;
      destruct (track_window_titles _ sid rest) as [m2 bs] eqn:E2;
      cbn [fst snd]; [pose proof (IH m) as IHm|
        pose proof (IH (mk_manager (storage m) (min_session_minutes m) (current_session_id m)
                                   (t :: session_window_titles m))) as IHm];
      rewrite E2 in IHm; cbn [fst snd storage current_session_id session_window_titles] in IHm;
      destruct IHm as [S1 [C1 [L1 [N1 [D1 [I1 K1]]]]]].
    + split; [exact S1|]. split; [exact C1|]. split; [cbn; f_equal; exact L1|].
      split; [|split; [exact D1|split]].
      * intros [|i] u Hu; cbn [nth_error firstn] in Hu |- *.
        -- injection Hu as <-. split; [discriminate|]. intros [Hne [Hnin _]].
           destruct Ht as [Ht|Ht]; contradiction.
        -- rewrite (N1 i u Hu). split.
           ++ intros [Hu1 [Hu2 Hu3]]. split; [exact Hu1|]. split; [exact Hu2|].
              intros [<-|Hin]; [destruct Ht; contradiction|contradiction].
           ++ intros [Hu1 [Hu2 Hu3]]. split; [exact Hu1|]. split; [exact Hu2|].
              intros Hin; apply Hu3; right; exact Hin.
      * intros u. rewrite I1. split.
        -- intros [H|[H1 H2]]; [left; exact H|right; split; [exact H1|right; exact H2]].
        -- intros [H|[H1 [<-|H2]]]; [left; exact H| |right; split; assumption].
           destruct Ht; [contradiction|left; assumption].
      * rewrite K1. cbn [count_occ]. destruct (bool_dec false true); [discriminate|reflexivity].
    + split; [exact S1|]. split; [exact C1|]. split; [cbn; f_equal; exact L1|].
      split; [|split; [intros D; apply D1; constructor; assumption|split]].
      * intros [|i] u Hu; cbn [nth_error firstn] in Hu |- *.
        -- injection Hu as <-. split; [intros _; split; [exact Hne|split; [exact Hnin|tauto]]|].
           intros _; reflexivity.
        -- rewrite (N1 i u Hu). split.
           ++ intros [Hu1 [Hu2 Hu3]]. split; [exact Hu1|].
              split; [intros Hin; apply Hu2; right; exact Hin|].
              intros [<-|Hin]; [apply Hu2; left; reflexivity|contradiction].
           ++ intros [Hu1 [Hu2 Hu3]]. split; [exact Hu1|].
              split; [intros [<-|Hin]; [apply Hu3; left; reflexivity|contradiction]|].
              intros Hin; apply Hu3; right; exact Hin.
      * intros u. rewrite I1. cbn [In]. split.
        -- intros [[<-|H]|[H1 H2]]; [right; split; [exact Hne|left; reflexivity]|left; exact H|].
           right; split; [exact H1|right; exact H2].
        -- intros [H|[H1 [<-|H2]]]; [left; right; exact H|left; left; reflexivity|].
           right; split; assumption.
      * rewrite K1. cbn [count_occ List.length].
        destruct (bool_dec true true) as [_|C]; [lia|congruence].
Qed.

(** Extra (sessions.py, [start_session] then [track_window_title]): after
    [start_session], successive calls answer [True] exactly for the
    non-empty titles not seen before in the session; the title set holds
    exactly the non-empty titles passed, without repetition, one for each
    [True] answer, and the session table is untouched. *)
Theorem track_window_titles_first_seen (m : session_manager) (now sid : Z)
    (titles : list string) :
  let m0 := fst (start_session m now) in
  let r := track_window_titles m0 sid titles in
  storage (fst r) = storage m0 /\
  List.length (snd r) = List.length titles /\
  (forall i t, nth_error titles i = Some t ->
     (nth_error (snd r) i = Some true <-> t <> "" /\ ~ In t (firstn i titles))) /\
  NoDup (session_window_titles (fst r)) /\
  (forall t, In t (session_window_titles (fst r)) <-> t <> "" /\ In t titles) /\
  count_occ bool_dec (snd r) true = List.length (session_window_titles (fst r)).
Proof.
  cbv zeta. unfold start_session.
  destruct (storage_create_session (storage m) now) as [table sid0]. cbn [fst].
  destruct (track_window_titles_spec (mk_manager table (min_session_minutes m) (Some sid0) [])
              sid titles) as [S1 [_ [L1 [N1 [D1 [I1 K1]]]]]].
  cbn [session_window_titles List.length] in N1, D1, I1, K1.
  split; [exact S1|]. split; [exact L1|].
  split; [intros i t H; rewrite (N1 i t H); cbn [In]; tauto|].
  split; [apply D1; constructor|].
  split; [intros t; rewrite I1; cbn [In]; tauto|].
  rewrite K1. reflexivity.
Qed.

Lemma fold_max_id_bound (table : list session_row) (acc : Z) :
  (acc <= fold_left (fun m r => Z.max m (id r)) table acc)%Z /\
  (forall r, In r table -> id r <= fold_left (fun m r => Z.max m (id r)) table acc)%Z.
Proof.
  revert acc; induction table as [|r rest IH]; intros acc; cbn [fold_left].
  - split; [lia|intros r []].
  - destruct (IH (Z.max acc (id r))) as [H1 H2]. split; [lia|].
    intros r' [<-|Hin]; [lia|exact (H2 r' Hin)].
Qed.

Lemma next_session_id_fresh (table : list session_row) :
  forall r, In r table -> (id r < next_session_id table)%Z.
Proof.
  intros r Hin. unfold next_session_id.
  pose proof (proj2 (fold_max_id_bound table 0) r Hin). lia.
Qed.

Lemma filter_keep_all {A : Type} (f : A -> bool) (l : list A) :
  (forall x, In x l -> f x = true) -> filter f l = l.
Proof.
  induction l as [|x l IH]; intros H; cbn; [reflexivity|].
  rewrite (H x (or_introl eq_refl)), IH by (intros y Hy; apply H; right; exact Hy).
  reflexivity.
Qed.

Lemma map_keep_all {A : Type} (f : A -> A) (l : list A) :
  (forall x, In x l -> f x = x) -> map f l = l.
Proof.
  induction l as [|x l IH]; intros H; cbn; [reflexivity|].
  rewrite (H x (or_introl eq_refl)), IH by (intros y Hy; apply H; right; exact Hy).
  reflexivity.
Qed.

Lemma find_none_app {A : Type} (f : A -> bool) (l : list A) (x : A) :
  (forall y, In y l -> f y = false) -> find f (l ++ [x])%list = if f x then Some x else None.
Proof.
  induction l as [|y l IH]; intros H; cbn; [reflexivity|].
  rewrite (H y (or_introl eq_refl)). apply IH. intros z Hz; apply H; right; exact Hz.
Qed.

(** Extra (sessions.py, [start_session] then [end_session], storage
    modelled from the spec): a session started and then ended before
    [min_session_minutes] minutes leaves the session table as it was before
    [start_session]; one ended later adds exactly one row, closed with the
    end instant and the whole seconds, and that row is what [end_session]
    returns.  Both reset the current session and its title set. *)
Theorem start_end_session (m : session_manager) (now end_t now' : Z) :
  let (m1, sid) := start_session m now in
  let (m2, ret) := end_session m1 sid (Some end_t) now' in
  current_session_id m2 = None /\ session_window_titles m2 = [] /\
  if (elapsed_seconds now end_t <? 60 * min_session_minutes m)%Z
  then storage m2 = storage m /\ ret = None
  else let row := mk_session sid now (Some end_t) (Some (elapsed_seconds now end_t)) 0 0 in
       storage m2 = (storage m ++ [row])%list /\ ret = Some row.
Proof.
  unfold start_session, storage_create_session.
  set (sid := next_session_id (storage m)).
  assert (Hfresh : forall r, In r (storage m) -> (id r =? sid)%Z = false).
  { intros r Hin. apply Z.eqb_neq. pose proof (next_session_id_fresh _ r Hin). lia. }
  unfold end_session. cbn [storage min_session_minutes].
  assert (Hget : storage_get_session (storage m ++ [mk_session sid now None None 0 0])%list sid
                 = Some (mk_session sid now None None 0 0)).
  { unfold storage_get_session. rewrite find_none_app by exact Hfresh.
    cbn [id]. rewrite Z.eqb_refl. reflexivity. }
  rewrite Hget. cbn [start_time].
  destruct (elapsed_seconds now end_t <? 60 * min_session_minutes m)%Z.
  - cbn. split; [reflexivity|]. split; [reflexivity|]. split; [|reflexivity].
    unfold storage_delete_session. rewrite filter_app, filter_keep_all.
    + cbn. rewrite Z.eqb_refl. apply app_nil_r.
    + intros r Hin. rewrite Hfresh by exact Hin. reflexivity.
  - cbn [current_session_id session_window_titles storage].
    split; [reflexivity|]. split; [reflexivity|].
    assert (Hend : storage_end_session (storage m ++ [mk_session sid now None None 0 0])%list
                     sid end_t (elapsed_seconds now end_t)
                   = (storage m ++ [mk_session sid now (Some end_t)
                                      (Some (elapsed_seconds now end_t)) 0 0])%list).
    { unfold storage_end_session. rewrite map_app, map_keep_all.
      - cbn. rewrite Z.eqb_refl. reflexivity.
      - intros r Hin. rewrite Hfresh by exact Hin. reflexivity. }
    rewrite Hend. split; [reflexivity|].
    unfold storage_get_session. rewrite find_none_app by exact Hfresh.
    cbn [id]. rewrite Z.eqb_refl. reflexivity.
Qed.

Lemma fold_delete_row_children (ds : list Z) (db : database) :
  session_screenshots (fold_left (fun d del_id => delete_row del_id d) ds db) =
    session_screenshots db /\
  window_focus_events (fold_left (fun d del_id => delete_row del_id d) ds db) =
    window_focus_events db /\
  session_ocr_cache (fold_left (fun d del_id => delete_row del_id d) ds db) =
    session_ocr_cache db.
Proof.
  revert db; induction ds as [|x ds IH]; intros db; cbn [fold_left]; [auto|].
  destruct (IH (delete_row x db)) as [A [B C]]. auto.
Qed.

Lemma fold_delete_shots (ds : list Z) (db : database) :
  session_screenshots (fold_left (fun d del_id => delete_row del_id d) ds db) =
  session_screenshots db.
Proof. apply fold_delete_row_children. Qed.

Lemma fold_delete_focus (ds : list Z) (db : database) :
  window_focus_events (fold_left (fun d del_id => delete_row del_id d) ds db) =
  window_focus_events db.
Proof. apply fold_delete_row_children. Qed.

Lemma fold_delete_ocr (ds : list Z) (db : database) :
  session_ocr_cache (fold_left (fun d del_id => delete_row del_id d) ds db) =
  session_ocr_cache db.
Proof. apply fold_delete_row_children. Qed.

Lemma relink_cons {A : Type} (k d : Z) (ds : list Z) (p : Z * A) :
  relink k ds (let '(sid, x) := p in if (sid =? d)%Z then (k, x) else (sid, x)) =
  relink k (d :: ds) p.
Proof.
  destruct p as [sid x]. unfold relink. cbn [existsb].
  destruct (Z.eqb_spec sid d) as [->|E].
  - cbn [orb]. destruct (existsb (Z.eqb k) ds); reflexivity.
  - replace (sid =? d)%Z with false by (symmetry; apply Z.eqb_neq; exact E). reflexivity.
Qed.

Lemma relink_nil {A : Type} (k : Z) (p : Z * A) : relink k [] p = p.
Proof. destruct p; reflexivity. Qed.

Lemma fold_move_donor_children (k : Z) (ds : list Z) (db : database) :
  let db' := fold_left (fun d del_id => move_donor k del_id d) ds db in
  session_screenshots db' = map (relink k ds) (session_screenshots db) /\
  window_focus_events db' = map (relink k ds) (window_focus_events db).
Proof.
  revert db; induction ds as [|d ds IH]; intros db; cbn [fold_left].
  - split; symmetry; apply map_keep_all; intros p _; apply relink_nil.
  - destruct (IH (move_donor k d db)) as [A B]. rewrite A, B.
    unfold move_donor; cbn [session_screenshots window_focus_events].
    rewrite !map_map. split; apply map_ext; intros p; apply relink_cons.
Qed.

Lemma map_snd_relink {A : Type} (k : Z) (ds : list Z) (l : list (Z * A)) :
  map snd (map (relink k ds) l) = map snd l.
Proof. rewrite map_map. apply map_ext. intros [sid x]; reflexivity. Qed.

(** The child rows after [merge_chain]: unchanged when nothing is merged,
    otherwise every link to a session of the tail re-pointed to the head. *)
Lemma merge_chain_children (db db' : database) (chain : list Z) (n : nat) :
  merge_chain db chain = Ok (db', n) ->
  (db' = db /\ n = 0%nat) \/
  (n = (List.length chain - 1)%nat /\
   session_screenshots db' = map (relink (hd 0%Z chain) (tl chain)) (session_screenshots db) /\
   window_focus_events db' = map (relink (hd 0%Z chain) (tl chain)) (window_focus_events db) /\
   session_ocr_cache db' =
     session_ocr_cache (fold_left (fun d del_id => move_donor (hd 0%Z chain) del_id d)
                                  (tl chain) db)).
Proof.
  unfold merge_chain. intros Hm.
  destruct chain as [|k [|d ds]]; [injection Hm as <- <-; left; auto|injection Hm as <- <-; left; auto|].
  destruct (storage_get_session (activity_sessions db) k) as [fs|];
    [|injection Hm as <- <-; left; auto].
  destruct (storage_get_session (activity_sessions db) (last (k :: d :: ds) 0%Z)) as [ls|];
    [|injection Hm as <- <-; left; auto].
  destruct (end_time ls) as [new_end|]; [|discriminate].
  injection Hm as <- <-. right. cbn [hd tl List.length]. split; [lia|].
  rewrite fold_delete_shots, fold_delete_focus, fold_delete_ocr.
  cbn [delete_row update_row session_screenshots window_focus_events session_ocr_cache].
  split; [exact (proj1 (fold_move_donor_children k (d :: ds) db))|].
  split; [exact (proj2 (fold_move_donor_children k (d :: ds) db))|reflexivity].
Qed.

Lemma NoDup_map_filter {A B : Type} (f : A -> B) (P : A -> bool) (l : list A) :
  NoDup (map f l) -> NoDup (map f (filter P l)).
Proof.
  induction l as [|x l IH]; intros H; cbn; [constructor|].
  inversion H as [|? ? Hx Hl]; subst.
  destruct (P x); [|exact (IH Hl)].
  cbn. constructor; [|exact (IH Hl)].
  intros Hin. apply Hx. apply in_map_iff in Hin as [y [E Hy]].
  apply filter_In in Hy as [Hy _]. rewrite <- E. apply in_map. exact Hy.
Qed.

Lemma NoDup_map_transfer {A B C : Type} (f : A -> B) (h : A -> C) (l : list A) :
  NoDup (map f l) ->
  (forall x y, In x l -> In y l -> h x = h y -> f x = f y) ->
  NoDup (map h l).
Proof.
  induction l as [|x l IH]; intros H Hinj; cbn; [constructor|].
  inversion H as [|? ? Hx Hl]; subst.
  constructor.
  - intros Hin. apply in_map_iff in Hin as [y [E Hy]].
    apply Hx. rewrite <- (Hinj y x (or_intror Hy) (or_introl eq_refl) E).
    apply in_map. exact Hy.
  - apply IH; [exact Hl|]. intros a b Ha Hb E. apply Hinj; [right|right|]; assumption.
Qed.

Lemma move_donor_ocr_nodup (k d : Z) (db : database) :
  NoDup (map ocr_key (session_ocr_cache db)) ->
  NoDup (map ocr_key (session_ocr_cache (move_donor k d db))).
Proof.
  intros H. unfold move_donor; cbn [session_ocr_cache]. rewrite map_map.
  set (keep_titles := map ocr_window_title
         (filter (fun o => (ocr_session_id o =? k)%Z) (session_ocr_cache db))).
  apply NoDup_map_transfer with (f := ocr_key); [apply NoDup_map_filter; exact H|].
  intros x y Hx Hy E.
  apply filter_In in Hx as [Hx Px]. apply filter_In in Hy as [Hy Py].
  destruct x as [sx tx ox], y as [sy ty oy]. unfold ocr_key in *; cbn in *.
  assert (Hkt : forall t, In (mk_ocr k t oy) (session_ocr_cache db) \/
                          In (mk_ocr k t ox) (session_ocr_cache db) ->
                existsb (String.eqb t) keep_titles = true).
  { intros t Ht. apply existsb_string_eqb_In. unfold keep_titles.
    apply in_map_iff. destruct Ht as [Ht|Ht]; eexists; (split; [|apply filter_In; split;
      [exact Ht|cbn; apply Z.eqb_refl]]); reflexivity. }
  destruct (Z.eqb_spec sx d) as [Ex|Ex], (Z.eqb_spec sy d) as [Ey|Ey]; cbn in E, Px, Py.
  - injection E as E. subst. reflexivity.
  - injection E as E1 E2. subst sy ty.
    rewrite (Hkt tx (or_introl Hy)) in Px. discriminate.
  - injection E as E1 E2. subst sx tx.
    rewrite (Hkt ty (or_intror Hx)) in Py. discriminate.
  - exact E.
Qed.

Lemma fold_move_donor_ocr_nodup (k : Z) (ds : list Z) (db : database) :
  NoDup (map ocr_key (session_ocr_cache db)) ->
  NoDup (map ocr_key (session_ocr_cache
    (fold_left (fun d del_id => move_donor k del_id d) ds db))).
Proof.
  revert db; induction ds as [|d ds IH]; intros db H; cbn [fold_left]; [exact H|].
  apply IH, move_donor_ocr_nodup, H.
Qed.

Lemma merge_chain_ocr_nodup (db db' : database) (chain : list Z) (n : nat) :
  merge_chain db chain = Ok (db', n) ->
  NoDup (map ocr_key (session_ocr_cache db)) ->
  NoDup (map ocr_key (session_ocr_cache db')).
Proof.
  intros Hm H. destruct (merge_chain_children db db' chain n Hm) as [[-> _]|[_ [_ [_ E]]]];
    [exact H|]. rewrite E. apply fold_move_donor_ocr_nodup, H.
Qed.

Lemma merge_chains_ocr_nodup (db db' : database) (cs : list (list Z)) :
  merge_chains db cs = Ok db' ->
  NoDup (map ocr_key (session_ocr_cache db)) ->
  NoDup (map ocr_key (session_ocr_cache db')).
Proof.
  revert db; induction cs as [|c cs IH]; intros db Hm H; cbn [merge_chains] in Hm.
  - injection Hm as <-. exact H.
  - destruct (merge_chain db c) as [[db1 n]|e] eqn:M; [|discriminate].
    exact (IH db1 Hm (merge_chain_ocr_nodup db db1 c n M H)).
Qed.

Lemma merge_chains_child_ids (db db' : database) (cs : list (list Z)) :
  merge_chains db cs = Ok db' ->
  map snd (session_screenshots db') = map snd (session_screenshots db) /\
  map snd (window_focus_events db') = map snd (window_focus_events db).
Proof.
  revert db; induction cs as [|c cs IH]; intros db Hm; cbn [merge_chains] in Hm.
  - injection Hm as <-. split; reflexivity.
  - destruct (merge_chain db c) as [[db1 n]|e] eqn:M; [|discriminate].
    destruct (IH db1 Hm) as [A B]. rewrite A, B.
    destruct (merge_chain_children db db1 c n M) as [[-> _]|[_ [S [F _]]]];
      [split; reflexivity|].
    rewrite S, F, !map_snd_relink. split; reflexivity.
Qed.

(** Extra (merge_fragmented_sessions.py, [merge_chain]): [merge_chain]
    either changes nothing and reports 0 merged (chain shorter than 2, or
    first or last session missing), or reports [len(chain) - 1] merged and
    re-points exactly the screenshot links and focus events of the sessions
    [chain[1:]] to [chain[0]], leaving every other link as it was. *)
Theorem merge_chain_relink (db db' : database) (chain : list Z) (n : nat) :
  merge_chain db chain = Ok (db', n) ->
  (db' = db /\ n = 0%nat) \/
  (n = (List.length chain - 1)%nat /\
   session_screenshots db' = map (relink (hd 0%Z chain) (tl chain)) (session_screenshots db) /\
   window_focus_events db' = map (relink (hd 0%Z chain) (tl chain)) (window_focus_events db)).
Proof.
  intros Hm. destruct (merge_chain_children db db' chain n Hm) as [H|[A [B [C _]]]];
    [left; exact H|right; auto].
Qed.

Lemma merge_chain_relink_witness :
  exists db' n, merge_chain drifted_counts [1; 2; 3]%Z = Ok (db', n) /\
  ((db' = drifted_counts /\ n = 0%nat) \/
   (n = (List.length [1; 2; 3]%Z - 1)%nat /\
    session_screenshots db' = map (relink 1 [2; 3]%Z) (session_screenshots drifted_counts) /\
    window_focus_events db' = map (relink 1 [2; 3]%Z) (window_focus_events drifted_counts))).
Proof.
  exists (match merge_chain drifted_counts [1; 2; 3]%Z with
          | Ok (d, _) => d | Raise _ => drifted_counts end), 2%nat.
  split; [vm_compute; reflexivity|].
  apply (merge_chain_relink drifted_counts _ [1; 2; 3]%Z 2). vm_compute; reflexivity.
Defined.

(** Extra (merge_fragmented_sessions.py, [main] with [merge_chain]): a
    repair that succeeds keeps every screenshot link and every focus event:
    the screenshot ids of [session_screenshots] and the window titles of
    [window_focus_events] are the same, in the same order, only their
    [session_id] may change. *)
Theorem repair_keeps_child_rows (db db' : database) (gap_threshold : Z) :
  repair db gap_threshold = Ok db' ->
  map snd (session_screenshots db') = map snd (session_screenshots db) /\
  map snd (window_focus_events db') = map snd (window_focus_events db).
Proof.
  unfold repair. destruct (find_fragmented_pairs_with_threshold db gap_threshold).
  - intros H; injection H as <-. split; reflexivity.
  - apply merge_chains_child_ids.
Qed.

Lemma repair_keeps_child_rows_witness :
  exists db', repair drifted_counts 60 = Ok db' /\
  map snd (session_screenshots db') = map snd (session_screenshots drifted_counts) /\
  map snd (window_focus_events db') = map snd (window_focus_events drifted_counts).
Proof.
  exists (match repair drifted_counts 60 with Ok d => d | Raise _ => drifted_counts end).
  split; [vm_compute; reflexivity|].
  apply (repair_keeps_child_rows drifted_counts _ 60). vm_compute; reflexivity.
Defined.

(** Extra (merge_fragmented_sessions.py, [merge_chain] and [main]): the
    deletion of duplicate titles before each [UPDATE session_ocr_cache] is
    enough.  For any kept session and donor, if [(session_id,
    window_title)] is unique in [session_ocr_cache] before the donor's
    [DELETE] and [UPDATE], it is unique after them; hence it is unique
    after every donor step of every [merge_chain], and after a successful
    repair. *)
Theorem repair_ocr_unique :
  (forall (keep_id del_id : Z) (db : database),
     NoDup (map ocr_key (session_ocr_cache db)) ->
     NoDup (map ocr_key (session_ocr_cache (move_donor keep_id del_id db)))) /\
  (forall (db db' : database) (gap_threshold : Z),
     repair db gap_threshold = Ok db' ->
     NoDup (map ocr_key (session_ocr_cache db)) ->
     NoDup (map ocr_key (session_ocr_cache db'))).
Proof.
  split; [exact move_donor_ocr_nodup|].
  intros db db' gap_threshold.
  unfold repair. destruct (find_fragmented_pairs_with_threshold db gap_threshold).
  - intros H; injection H as <-. exact (fun H => H).
  - apply merge_chains_ocr_nodup.
Qed.

Lemma repair_ocr_unique_witness :
  NoDup (map ocr_key (session_ocr_cache overlapping_ocr)) /\
  NoDup (map ocr_key (session_ocr_cache (move_donor 1%Z 2%Z overlapping_ocr))) /\
  exists db', repair overlapping_ocr 60 = Ok db' /\
  NoDup (map ocr_key (session_ocr_cache db')).
Proof.
  assert (H0 : NoDup (map ocr_key (session_ocr_cache overlapping_ocr))).
  { cbn. repeat constructor; cbn; intuition discriminate. }
  split; [exact H0|]. split; [exact (proj1 repair_ocr_unique 1%Z 2%Z overlapping_ocr H0)|].
  exists (match repair overlapping_ocr 60 with Ok d => d | Raise _ => overlapping_ocr end).
  split; [vm_compute; reflexivity|].
  apply (proj2 repair_ocr_unique overlapping_ocr _ 60%Z); [vm_compute; reflexivity|exact H0].
Defined.

Lemma update_row_ids (k : Z) (f : session_row -> session_row) (db : database) :
  (forall r, id (f r) = id r) ->
  map id (activity_sessions (update_row k f db)) = map id (activity_sessions db).
Proof.
  intros Hf. unfold update_row; cbn [activity_sessions]. rewrite map_map.
  apply map_ext. intros r. destruct (id r =? k)%Z; [apply Hf|reflexivity].
Qed.

Lemma in_ids_delete_rows (dels : list Z) (db : database) (x : Z) :
  In x (map id (activity_sessions (fold_left (fun d del_id => delete_row del_id d) dels db))) <->
  In x (map id (activity_sessions db)) /\ ~ In x dels.
Proof.
  rewrite !in_map_iff. split.
  - intros [r [<- Hr]]. apply in_delete_rows in Hr as [Hr Hn]. split; [|exact Hn].
    exists r. split; [reflexivity|exact Hr].
  - intros [[r [<- Hr]] Hn]. exists r. split; [reflexivity|].
    apply in_delete_rows. split; assumption.
Qed.

(** The session ids after [merge_chain]: unchanged when nothing is merged,
    otherwise those of the tail removed, the head being one of them. *)
Lemma merge_chain_ids (db db' : database) (chain : list Z) (n : nat) :
  merge_chain db chain = Ok (db', n) ->
  db' = db \/
  (In (hd 0%Z chain) (map id (activity_sessions db)) /\
   forall x, In x (map id (activity_sessions db')) <->
             In x (map id (activity_sessions db)) /\ ~ In x (tl chain)).
Proof.
  unfold merge_chain. intros Hm.
  destruct chain as [|k [|d ds]]; [injection Hm as <- _; left; auto|injection Hm as <- _; left; auto|].
  destruct (storage_get_session (activity_sessions db) k) as [fs|] eqn:Hfs;
    [|injection Hm as <- _; left; auto].
  destruct (storage_get_session (activity_sessions db) (last (k :: d :: ds) 0%Z)) as [ls|];
    [|injection Hm as <- _; left; auto].
  destruct (end_time ls) as [new_end|]; [|discriminate].
  injection Hm as <- _. right. cbn [hd tl].
  apply storage_get_session_id in Hfs as [Ik Hk].
  split; [rewrite <- Ik; apply in_map; exact Hk|].
  intros x. match goal with |- In x (map id (activity_sessions ?D)) <-> _ =>
    change D with (fold_left (fun d0 del_id => delete_row del_id d0) (d :: ds)
                   (update_row k (fun r => mk_session (id r) (start_time r) (end_time r)
                      (duration_seconds r)
                      (count_screenshots (update_row k (fun r0 => mk_session (id r0) (start_time r0)
                         (Some new_end) (Some (elapsed_seconds (start_time fs) new_end))
                         (screenshot_count r0) (unique_windows r0))
                         (fold_left (fun d0 del_id => move_donor k del_id d0) (d :: ds) db)) k)
                      (count_unique_windows (update_row k (fun r0 => mk_session (id r0) (start_time r0)
                         (Some new_end) (Some (elapsed_seconds (start_time fs) new_end))
                         (screenshot_count r0) (unique_windows r0))
                         (fold_left (fun d0 del_id => move_donor k del_id d0) (d :: ds) db)) k))
                    (update_row k (fun r0 => mk_session (id r0) (start_time r0)
                         (Some new_end) (Some (elapsed_seconds (start_time fs) new_end))
                         (screenshot_count r0) (unique_windows r0))
                         (fold_left (fun d0 del_id => move_donor k del_id d0) (d :: ds) db))))
  end.
  rewrite in_ids_delete_rows, !update_row_ids by reflexivity.
  rewrite fold_move_donor_sessions. reflexivity.
Qed.

Lemma relink_fst {A : Type} (k : Z) (ds : list Z) (p : Z * A) :
  fst (relink k ds p) = fst p /\ ~ In (fst p) ds \/ fst (relink k ds p) = k.
Proof.
  destruct p as [sid x]. unfold relink; cbn [fst].
  destruct (existsb (Z.eqb sid) ds) eqn:E; [right; reflexivity|left; split; [reflexivity|]].
  intros Hin. assert (existsb (Z.eqb sid) ds = true)
    by (apply existsb_exists; exists sid; split; [exact Hin|apply Z.eqb_refl]).
  congruence.
Qed.

Lemma merge_chain_links_valid (db db' : database) (chain : list Z) (n : nat) :
  ~ In (hd 0%Z chain) (tl chain) ->
  merge_chain db chain = Ok (db', n) ->
  child_links_valid db -> child_links_valid db'.
Proof.
  intros Hht Hm [Vs Vf].
  destruct (merge_chain_ids db db' chain n Hm) as [->|[Hh Hids]]; [split; assumption|].
  destruct (merge_chain_children db db' chain n Hm) as [[-> _]|[_ [S [F _]]]];
    [split; assumption|].
  assert (Hkeep : forall {A : Type} (links : list (Z * A)),
            (forall p, In p links -> In (fst p) (map id (activity_sessions db))) ->
            forall p, In p (map (relink (hd 0%Z chain) (tl chain)) links) ->
                      In (fst p) (map id (activity_sessions db'))).
  { intros A links V p Hp. apply in_map_iff in Hp as [q [<- Hq]]. apply Hids.
    destruct (relink_fst (hd 0%Z chain) (tl chain) q) as [[E Hn]|E]; rewrite E.
    - split; [exact (V q Hq)|exact Hn].
    - split; [exact Hh|exact Hht]. }
  split; [rewrite S; exact (Hkeep _ _ Vs)|rewrite F; exact (Hkeep _ _ Vf)].
Qed.

Lemma merge_chains_links_valid (db db' : database) (cs : list (list Z)) :
  increasing (List.concat cs) ->
  merge_chains db cs = Ok db' ->
  child_links_valid db -> child_links_valid db'.
Proof.
  revert db; induction cs as [|c cs IH]; intros db Hi Hm V; cbn [merge_chains] in Hm.
  - injection Hm as <-. exact V.
  - destruct (merge_chain db c) as [[db1 n]|e] eqn:M; [|discriminate].
    cbn [List.concat] in Hi.
    apply (IH db1 (increasing_app_r _ _ Hi) Hm).
    apply (merge_chain_links_valid db db1 c n); [|exact M|exact V].
    destruct c as [|k ds]; [intros []|]. cbn [hd tl].
    rewrite <- app_comm_cons in Hi. apply increasing_forall in Hi.
    rewrite Forall_forall in Hi. intros Hk.
    specialize (Hi k (in_or_app _ _ _ (or_introl Hk))). lia.
Qed.

(** Extra (merge_fragmented_sessions.py, [main] with [merge_chain]): on a
    session table in id order, a repair that succeeds leaves no dangling
    link: if every [session_id] of [session_screenshots] and
    [window_focus_events] names a session before, every one names a
    session after, although sessions are deleted. *)
Theorem repair_links_valid (db db' : database) (gap_threshold : Z) :
  increasing (map id (activity_sessions db)) ->
  repair db gap_threshold = Ok db' ->
  child_links_valid db -> child_links_valid db'.
Proof.
  intros Hinc. unfold repair.
  destruct (find_fragmented_pairs_with_threshold db gap_threshold) as [|p0 rest] eqn:Hps.
  - intros H; injection H as <-. exact (fun V => V).
  - apply merge_chains_links_valid. apply build_merge_chains_increasing.
    + rewrite <- Hps. apply collect_pairs_shape.
    + rewrite <- Hps. apply collect_pairs_increasing. exact Hinc.
Qed.

Lemma repair_links_valid_witness :
  exists db', increasing (map id (activity_sessions drifted_counts)) /\
  repair drifted_counts 60 = Ok db' /\ child_links_valid drifted_counts /\
  child_links_valid db'.
Proof.
  assert (V : child_links_valid drifted_counts).
  { split; intros p Hp; cbn in Hp; decompose sum Hp; subst; cbn; tauto. }
  assert (Hi : increasing (map id (activity_sessions drifted_counts))).
  { cbn. lia. }
  exists (match repair drifted_counts 60 with Ok d => d | Raise _ => drifted_counts end).
  split; [exact Hi|]. split; [vm_compute; reflexivity|]. split; [exact V|].
  apply (repair_links_valid drifted_counts _ 60 Hi); [vm_compute; reflexivity|exact V].
Defined.
